(** * diskspace: the tree builder, sorter, size formatter and renderer

    A shallow embedding of [diskspace/diskspace.py] (Python 2: [/] on two
    integers is floor division, [round] rounds halves away from zero) and
    the properties of its specification that were checked against it.

    The embedding starts where [show_space_list] has parsed the output of
    [du] into a list of [(file_size, file_path)] pairs (line 142) and covers
    lines 138-192 together with [bytes_to_readable] and [print_tree]. The
    command line handed to [subprocess_check_output] (lines 131-135 and 48)
    and the parsing of the output of [du] (lines 139-146) are embedded on
    their own, in the section on the measurement source.

    Conventions.
    - [file_tree] is a Python dict from path to a dict with the keys
      ['children'], ['size'] and, after the formatting loop, ['print_size'];
      it is a [gmap string node] here.
    - A measured size is the [int] of a match of [\d+], hence a natural
      number ([N]); [total_size] starts at the sentinel [-1], hence [Z].
      Python's [int] and [long] are not told apart: integers are unbounded,
      and the contract [int] is taken to accept both.
    - [print] appends to the standard output; the output is the list of
      [printed] events, kept with the arguments that were formatted, and
      [printed_text] gives the text of each line.
    - The functions are decorated with PyContracts' [@contract], which
      checks the [:type:] clauses of the docstring on every call unless
      contract checking is switched off (environment variable
      DISABLE_CONTRACTS or [contracts.disable_all()]); [contracts_enabled]
      says which. Clauses that hold by typing are not checked again, and
      the contract of [show_space_list] itself, on [directory], [depth] and
      [order], is checked before the part that is embedded here. *)

From Stdlib Require Import ZArith NArith QArith Qround Ascii String List Lia.
From Stdlib Require Import DecimalString Floats.SpecFloat.
From stdpp Require Import base tactics option list sorting gmap strings fin_maps.

Local Open Scope string_scope.
Local Open Scope Z_scope.

(** ** Exceptions and results *)

Inductive exn : Type :=
  | KeyError (key : string)
  | IndexError
  | OverflowError
  | ZeroDivisionError
  | ValueError
  | ContractNotRespected (argument : string).

Inductive result (A : Type) : Type :=
  | Ok (a : A)
  | Raise (e : exn).
Arguments Ok {A} a.
Arguments Raise {A} e.

(** ** Python floats: binary64 *)

Module PyFloat.

Definition prec : Z := 53.
Definition emax : Z := 1024.

(** [float(n)] and the coercion of an integer operand of [/] or [*]:
    round to nearest even, [OverflowError] beyond the range of a double. *)
Definition of_int (n : Z) : result spec_float :=
  match binary_normalize prec emax n 0 false with
  | S754_infinity _ => Raise OverflowError
  | x => Ok x
  end.

Definition is_zero (x : spec_float) : bool :=
  match x with S754_zero _ => true | _ => false end.

Definition div (x y : spec_float) : result spec_float :=
  if is_zero y then Raise ZeroDivisionError else Ok (SFdiv prec emax x y).

Definition mul (x y : spec_float) : spec_float := SFmul prec emax x y.

(** [int(x)]: truncation toward zero. *)
Definition to_int (x : spec_float) : result Z :=
  match x with
  | S754_zero _ => Ok 0
  | S754_finite s m (Zneg p) => Ok (cond_Zopp s (Z.pos m / 2 ^ Z.pos p))
  | S754_finite s m e => Ok (cond_Zopp s (Z.pos m * 2 ^ e))
  | S754_infinity _ => Raise OverflowError
  | S754_nan => Raise ValueError
  end.

End PyFloat.

(** ** Strings: [os.path.dirname], [os.path.basename], [str.format] *)

Definition slash : ascii := "/"%char.

(** [(p[:i], p[i:])] for [i = p.rfind('/') + 1]. *)
Fixpoint rsplit_slash (p : string) : string * string :=
  match p with
  | EmptyString => (EmptyString, EmptyString)
  | String c rest =>
      match rsplit_slash rest with
      | (EmptyString, _) =>
          if Ascii.eqb c slash then (String c EmptyString, rest)
          else (EmptyString, String c rest)
      | (head, tail) => (String c head, tail)
      end
  end.

(** [s == '/' * len(s)] *)
Fixpoint all_slashes (s : string) : bool :=
  match s with
  | EmptyString => true
  | String c rest => Ascii.eqb c slash && all_slashes rest
  end.

(** [s.rstrip('/')] *)
Fixpoint rstrip_slash (s : string) : string :=
  match s with
  | EmptyString => EmptyString
  | String c rest =>
      match rstrip_slash rest with
      | EmptyString => if Ascii.eqb c slash then EmptyString else String c EmptyString
      | r => String c r
      end
  end.

(** [posixpath.dirname]:
    [i = p.rfind('/') + 1; head = p[:i];
     if head and head != '/'*len(head): head = head.rstrip('/')] *)
Definition dirname (p : string) : string :=
  let head := fst (rsplit_slash p) in
  if negb (String.eqb head EmptyString) && negb (all_slashes head)
  then rstrip_slash head else head.

(** [posixpath.basename]: [p[p.rfind('/') + 1:]] *)
Definition basename (p : string) : string := snd (rsplit_slash p).

Fixpoint repeat_string (s : string) (n : nat) : string :=
  match n with
  | O => EmptyString
  | S n' => (s ++ repeat_string s n')%string
  end.

(** ['{:>{}s}'.format(s, width)] *)
Definition rjust (width : nat) (s : string) : string :=
  (repeat_string " " (width - String.length s) ++ s)%string.

(** ['{:d}'.format(z)] *)
Definition str_of_Z (z : Z) : string := NilZero.string_of_int (Z.to_int z).

(** ** SizeFormatter: [bytes_to_readable] *)

Definition labels : list string := ["B"; "Kb"; "Mb"; "Gb"; "Tb"].

(** Lines 63-65: [while readable_bytes / 1024: readable_bytes /= 1024;
    count += 1]. [None] when the fuel runs out. *)
Fixpoint divide_loop (fuel : nat) (readable_bytes : Z) (count : nat)
  : option (Z * nat) :=
  match fuel with
  | O => None
  | S fuel' =>
      if readable_bytes / 1024 =? 0 then Some (readable_bytes, count)
      else divide_loop fuel' (readable_bytes / 1024) (S count)
  end.

(** More iterations than [byts] has binary digits are never needed
    ([divide_loop_total]). *)
Definition loop_fuel (byts : Z) : nat := S (Z.to_nat (Z.log2 byts)).

Definition division_count (byts : Z) : nat :=
  match divide_loop (loop_fuel byts) byts 0 with
  | Some (_, count) => count
  | None => O
  end.

(** The hundredths printed by ['{:.2f}'.format(round(byts/(1024.0**count), 2))].
    A count below 5 means [byts < 2^50], so the quotient by a power of two is
    an exact double; [round(_, 2)] then takes the nearest hundredth, halves
    away from zero, and ['{:.2f}'] prints that hundredth. *)
Definition hundredths (byts : Z) (count : nat) : Z :=
  (200 * byts + 1024 ^ Z.of_nat count) / (2 * 1024 ^ Z.of_nat count).

Definition two_digits (z : Z) : string :=
  if z <? 10 then ("0" ++ str_of_Z z)%string else str_of_Z z.

Definition fixed2 (h : Z) : string :=
  (str_of_Z (h / 100) ++ "." ++ two_digits (h mod 100))%string.

(** Lines 60-68. The contract [blocks: int, >=0] holds by typing. For a
    count of 5 or more nothing is returned: [byts/(1024.0**count)] is
    evaluated first and raises [OverflowError] when [byts] or the power
    exceeds the doubles, otherwise [labels[count]] raises [IndexError]. *)
Definition bytes_to_readable (blocks : N) : result string :=
  let byts := Z.of_N blocks * 512 in
  let count := division_count byts in
  match labels !! count with
  | Some label => Ok (fixed2 (hundredths byts count) ++ label)%string
  | None =>
      match PyFloat.of_int (1024 ^ Z.of_nat count), PyFloat.of_int byts with
      | Ok _, Ok _ => Raise IndexError
      | _, _ => Raise OverflowError
      end
  end.

(** ** Data model *)

Record node : Type := Node {
  children : list string;
  size : N;
  print_size : option string   (* the key 'print_size', absent until line 185 *)
}.

Abbreviation measurement := (N * string)%type.

(** [{'children': [], 'size': file_size}] *)
Definition new_node (file_size : N) : node := Node [] file_size None.

Definition set_size (file_size : N) (n : node) : node :=
  Node (children n) file_size (print_size n).

Definition append_child (file_path : string) (n : node) : node :=
  Node (children n ++ [file_path]) (size n) (print_size n).

(** ** TreeBuilder: the loop of lines 142-174 *)

(** One iteration, on the state [(total_size, file_tree)]. *)
Definition ingest (abs_directory : string) (st : Z * gmap string node)
    (line : measurement) : Z * gmap string node :=
  let '(total_size, file_tree) := st in
  let '(file_size, file_path) := line in
  let dir_path := dirname file_path in
  if decide (file_path = abs_directory) then
    (Z.of_N file_size,
     match file_tree !! file_path with
     | Some n => <[file_path := set_size file_size n]> file_tree
     | None => <[file_path := new_node file_size]> file_tree
     end)
  else
    let file_tree :=
      match file_tree !! file_path with
      | Some _ => file_tree
      | None => <[file_path := new_node file_size]> file_tree
      end in
    let file_tree :=
      match file_tree !! dir_path with
      | Some _ => file_tree
      | None => <[dir_path := new_node 0]> file_tree
      end in
    let file_tree := alter (append_child file_path) dir_path file_tree in
    let file_tree := alter (set_size file_size) file_path file_tree in
    (total_size, file_tree).

(** Lines 138-174: [total_size = -1; file_tree = {}; for line in ...]. *)
Definition build (measurements : list measurement) (abs_directory : string)
  : Z * gmap string node :=
  fold_left (ingest abs_directory) measurements (-1, ∅).

(** ** TreeSorter and the formatting pass: the loop of lines 176-188 *)

(** The keys [file_tree[v]['size']] of [sorted], computed for every element
    before anything is compared. *)
Fixpoint decorate (file_tree : gmap string node) (l : list string)
  : result (list (N * string)) :=
  match l with
  | [] => Ok []
  | v :: l' =>
      match file_tree !! v with
      | None => Raise (KeyError v)
      | Some n =>
          match decorate file_tree l' with
          | Ok d => Ok ((size n, v) :: d)
          | Raise e => Raise e
          end
      end
  end.

(** [a] may stay in front of [b]. *)
Definition in_order (reverse : bool) (a b : N) : bool :=
  if reverse then (b <=? a)%N else (a <=? b)%N.

(** Insertion in front of a sorted list of later elements: in front of the
    first one it may stay in front of, so that equal keys keep their order. *)
Fixpoint insert_sorted (reverse : bool) (x : N * string) (l : list (N * string))
  : list (N * string) :=
  match l with
  | [] => [x]
  | y :: l' =>
      if in_order reverse (fst x) (fst y) then x :: l
      else y :: insert_sorted reverse x l'
  end.

(** The order computed by Python's stable [sorted(..., reverse=reverse)]. *)
Definition stable_sort (reverse : bool) (l : list (N * string))
  : list (N * string) :=
  foldr (insert_sorted reverse) [] l.

(** [sorted(l, key=lambda v: file_tree[v]['size'], reverse=order)] *)
Definition sorted (file_tree : gmap string node) (reverse : bool)
    (l : list string) : result (list string) :=
  match decorate file_tree l with
  | Ok d => Ok (snd <$> stable_sort reverse d)
  | Raise e => Raise e
  end.

(** The body of the loop at [file_path], on [(file_tree, largest_size)]. *)
Definition sort_entry (order : bool) (st : gmap string node * nat)
    (file_path : string) : result (gmap string node * nat) :=
  let '(file_tree, largest_size) := st in
  match file_tree !! file_path with
  | None => Raise (KeyError file_path)
  | Some file_tree_entry =>
      match sorted file_tree order (children file_tree_entry) with
      | Raise e => Raise e
      | Ok cs =>
          match bytes_to_readable (size file_tree_entry) with
          | Raise e => Raise e
          | Ok ps =>
              Ok (<[file_path := Node cs (size file_tree_entry) (Some ps)]> file_tree,
                  Nat.max largest_size (String.length ps))
          end
      end
  end.

Fixpoint sort_entries (order : bool) (keys : list string)
    (st : gmap string node * nat) : result (gmap string node * nat) :=
  match keys with
  | [] => Ok st
  | file_path :: keys' =>
      match sort_entry order st file_path with
      | Ok st' => sort_entries order keys' st'
      | Raise e => Raise e
      end
  end.

(** Lines 176-188: [largest_size = 0; for file_path in file_tree: ...]. The
    iteration order of a Python 2 dict is unspecified; the keys are taken in
    the order of [map_to_list], which only decides whose exception is seen
    when several entries fail. *)
Definition sort_and_format (order : bool) (file_tree : gmap string node)
  : result (gmap string node * nat) :=
  sort_entries order (fst <$> map_to_list file_tree) (file_tree, O).

(** ** TreeRenderer: [print_tree] *)

(** The parsed command line ([args.hide], [args.tree_view]) and the switch
    of the contract checker. *)
Record environment : Type := Env {
  hide : Z;
  tree_view : bool;
  contracts_enabled : bool
}.

Inductive printed : Type :=
  | Header (largest_size : nat)
  | Entry (print_size : string) (largest_size : nat) (percentage : Z)
          (depth : nat) (path : string).

Inductive exit : Type :=
  | Returned
  | Raised (e : exn)
  | OutOfFuel.

Record outcome : Type := Outcome {
  output : list printed;
  status : exit
}.

(** Line 96: [int(file_tree_node['size'] / float(total_size) * 100)] *)
Definition percentage (node_size : N) (total_size : Z) : result Z :=
  match PyFloat.of_int total_size with
  | Raise e => Raise e
  | Ok t =>
      match PyFloat.of_int (Z.of_N node_size) with
      | Raise e => Raise e
      | Ok s =>
          match PyFloat.div s t with
          | Raise e => Raise e
          | Ok q =>
              match PyFloat.of_int 100 with
              | Raise e => Raise e
              | Ok hundred => PyFloat.to_int (PyFloat.mul q hundred)
              end
          end
      end
  end.

(** Lines 109-111, the calls being [call child_node child]: the loop stops
    at the first call that does not return. *)
Fixpoint for_children (file_tree : gmap string node)
    (call : node -> string -> outcome) (cs : list string) : outcome :=
  match cs with
  | [] => Outcome [] Returned
  | child :: cs' =>
      match file_tree !! child with
      | None => Outcome [] (Raised (KeyError child))
      | Some child_node =>
          let o := call child_node child in
          match status o with
          | Returned =>
              let o' := for_children file_tree call cs' in
              Outcome (output o ++ output o') (status o')
          | _ => o
          end
      end
  end.

(** Lines 72-111. [fuel] bounds the depth of the recursion. Of the contract
    only [total_size: int, >=0] can fail; [largest_size] and [depth] are
    natural numbers. *)
Fixpoint print_tree (env : environment) (fuel : nat)
    (file_tree : gmap string node) (file_tree_node : node) (path : string)
    (largest_size : nat) (total_size : Z) (depth : nat) : outcome :=
  match fuel with
  | O => Outcome [] OutOfFuel
  | S fuel' =>
      if contracts_enabled env && (total_size <? 0)
      then Outcome [] (Raised (ContractNotRespected "total_size"))
      else
        match percentage (size file_tree_node) total_size with
        | Raise e => Outcome [] (Raised e)
        | Ok pct =>
            if pct <? hide env then Outcome [] Returned
            else
              match print_size file_tree_node with
              | None => Outcome [] (Raised (KeyError "print_size"))
              | Some ps =>
                  let o :=
                    for_children file_tree
                      (fun child_node child =>
                         print_tree env fuel' file_tree child_node child
                           largest_size total_size (S depth))
                      (children file_tree_node) in
                  Outcome (Entry ps largest_size pct depth path :: output o)
                          (status o)
              end
        end
  end.

(** The text of a printed line (lines 101-106 and 190). *)
Definition printed_text (env : environment) (p : printed) : string :=
  match p with
  | Header largest_size =>
      (repeat_string " " (largest_size - 4) ++ "Size   (%)  File")%string
  | Entry ps largest_size pct depth path =>
      (rjust largest_size ps ++ " " ++ rjust 4 (str_of_Z pct) ++ "%  "
       ++ (if tree_view env
           then repeat_string "   " depth ++ basename path
           else path))%string
  end.

(** ** Orchestrator: lines 138-192 of [show_space_list] *)

Definition show_space_list_from (env : environment) (fuel : nat)
    (measurements : list measurement) (abs_directory : string) (order : bool)
  : outcome :=
  let '(total_size, file_tree) := build measurements abs_directory in
  match sort_and_format order file_tree with
  | Raise e => Outcome [] (Raised e)
  | Ok (file_tree, largest_size) =>
      match file_tree !! abs_directory with
      | None => Outcome [Header largest_size] (Raised (KeyError abs_directory))
      | Some root =>
          let o := print_tree env fuel file_tree root abs_directory
                     largest_size total_size 0 in
          Outcome (Header largest_size :: output o) (status o)
      end
  end.

(** ** The measurement source: the command line for [du] and its output *)

(** [string.whitespace]: what [str.strip()] strips and [\s] matches. *)
Definition is_space (c : ascii) : bool :=
  let n := nat_of_ascii c in
  Nat.eqb n 32 || (Nat.leb 9 n && Nat.leb n 13).

(** What [\d] matches. *)
Definition is_digit (c : ascii) : bool :=
  let n := nat_of_ascii c in Nat.leb 48 n && Nat.leb n 57.

Fixpoint lstrip (s : string) : string :=
  match s with
  | EmptyString => EmptyString
  | String c rest => if is_space c then lstrip rest else s
  end.

Fixpoint rstrip (s : string) : string :=
  match s with
  | EmptyString => EmptyString
  | String c rest =>
      match rstrip rest with
      | EmptyString => if is_space c then EmptyString else String c EmptyString
      | r => String c r
      end
  end.

(** [s.strip()] *)
Definition strip (s : string) : string := rstrip (lstrip s).

(** [s.split(' ')]: the pieces between single spaces, empty ones included. *)
Fixpoint split_space (s : string) : list string :=
  match s with
  | EmptyString => [EmptyString]
  | String c rest =>
      match split_space rest with
      | [] => [String c EmptyString]
      | w :: ws =>
          if Ascii.eqb c " " then EmptyString :: w :: ws
          else String c w :: ws
      end
  end.

(** Lines 114-135: the contract [depth: int, >=0] of [show_space_list],
    checked on every call while contract checking is on (the default -1 of
    [depth] included), and then the command handed to
    [subprocess_check_output]. [directory] and [order] meet their contracts
    by typing. *)
Definition du_command (env : environment) (depth : Z) (abs_directory : string)
  : result string :=
  if contracts_enabled env && (depth <? 0)
  then Raise (ContractNotRespected "depth")
  else
    Ok ("du "
        ++ (if Z.eqb depth (-1) then "" else "-d " ++ str_of_Z depth ++ " ")
        ++ abs_directory)%string.

(** Line 48: the argument vector [command.strip().split(' ')] that
    [subprocess.check_output] runs. *)
Definition subprocess_argv (command : string) : list string :=
  split_space (strip command).

(** Where the scanner of [re.findall(line_regex, ...)] stands, [line_regex]
    being digits, white space, then a group of non-space characters or else
    of non-digits (line 139): before a match, in the digits of group 1, in
    the white space after them, or in group 2. *)
Inductive scanning : Type :=
  | Seek
  | InDigits (digits : string)
  | InSpaces (digits : string)
  | InPath (digits : string) (path : string).

Definition snoc_char (s : string) (c : ascii) : string :=
  (s ++ String c EmptyString)%string.

(** The matches of the pattern from left to right. [\d+] and [\s+] are
    greedy; after the white space the first alternative [[^\s]*] of group 2
    always matches (the empty string at the end of the text), so [\D*] is
    never tried; a run of digits that no white space follows holds no match,
    at whichever of its digits the match is started; and the search goes on
    behind each match. *)
Fixpoint findall_from (st : scanning) (s : string) : list (string * string) :=
  match s with
  | EmptyString =>
      match st with
      | InSpaces ds => [(ds, EmptyString)]
      | InPath ds p => [(ds, p)]
      | _ => []
      end
  | String c rest =>
      match st with
      | Seek =>
          if is_digit c then findall_from (InDigits (String c EmptyString)) rest
          else findall_from Seek rest
      | InDigits ds =>
          if is_digit c then findall_from (InDigits (snoc_char ds c)) rest
          else if is_space c then findall_from (InSpaces ds) rest
          else findall_from Seek rest
      | InSpaces ds =>
          if is_space c then findall_from (InSpaces ds) rest
          else findall_from (InPath ds (String c EmptyString)) rest
      | InPath ds p =>
          if is_space c then (ds, p) :: findall_from Seek rest
          else findall_from (InPath ds (snoc_char p c)) rest
      end
  end.

(** [int(line[0])] on a string of decimal digits. *)
Fixpoint int_of_digits (acc : N) (s : string) : N :=
  match s with
  | EmptyString => acc
  | String c rest =>
      int_of_digits (10 * acc + N.of_nat (nat_of_ascii c - 48)) rest
  end.

(** Lines 142-146: the [(file_size, file_path)] pairs of the loop. *)
Definition parse_du (raw_output : string) : list measurement :=
  (fun line => (int_of_digits 0 (fst line), snd line))
    <$> findall_from Seek (strip raw_output).

(** One line of the output of [du]: the size, a tab, the path, a newline. *)
Definition du_line (line : string * string) : string :=
  (fst line ++ String "009" (snd line ++ String "010" EmptyString))%string.

Fixpoint du_output (lines : list (string * string)) : string :=
  match lines with
  | [] => EmptyString
  | line :: lines' => (du_line line ++ du_output lines')%string
  end.

Fixpoint all_chars (f : ascii -> bool) (s : string) : bool :=
  match s with
  | EmptyString => true
  | String c rest => f c && all_chars f rest
  end.

(** A line that [du] writes for a path without white space. *)
Definition plain_line (line : string * string) : Prop :=
  fst line <> EmptyString /\ all_chars is_digit (fst line) = true
  /\ snd line <> EmptyString
  /\ all_chars (fun c => negb (is_space c)) (snd line) = true.

(** [du_output lines] without its last newline. *)
Fixpoint du_joined (lines : list (string * string)) : string :=
  match lines with
  | [] => EmptyString
  | line :: lines' =>
      match lines' with
      | [] => (fst line ++ String "009" (snd line))%string
      | _ => (du_line line ++ du_joined lines')%string
      end
  end.

(** ** Vocabulary of the statements *)

(** [file_tree[v]['size']], the key of [sorted]. *)
Definition child_size (file_tree : gmap string node) (v : string) : option N :=
  size <$> file_tree !! v.

(** The sizes of the children, taken in their order in [cs], never step
    against the requested order. *)
Definition sizes_in_order (reverse : bool) (file_tree : gmap string node)
    (cs : list string) : Prop :=
  forall (i j : nat) (a b : string),
    (i < j)%nat -> cs !! i = Some a -> cs !! j = Some b ->
    exists sa sb : N,
      child_size file_tree a = Some sa /\ child_size file_tree b = Some sb
      /\ in_order reverse sa sb = true.

(** The children of size [s], in the order in which they stand in [cs]. *)
Definition of_size (file_tree : gmap string node) (s : N) (cs : list string)
  : list string :=
  filter (fun v => child_size file_tree v = Some s) cs.

(** What the pass makes of the entry [n] of [file_tree]. *)
Definition formatted (order : bool) (file_tree : gmap string node)
    (n n' : node) : Prop :=
  sorted file_tree order (children n) = Ok (children n')
  /\ size n' = size n
  /\ exists ps, bytes_to_readable (size n) = Ok ps /\ print_size n' = Some ps.

(** Every child stands in the list of its own directory name, is an entry of
    the tree, and is not the root. *)
Definition linked (root : string) (ft : gmap string node) : Prop :=
  forall k n c, ft !! k = Some n -> c ∈ children n ->
    c <> root /\ dirname c = k /\ is_Some (ft !! c).

(** How often [p] stands in the list of its directory name. *)
Definition children_count (ft : gmap string node) (p : string) : nat :=
  match ft !! dirname p with
  | Some n => length (filter (fun c => c = p) (children n))
  | None => O
  end.



(** A line printed for [path] at [depth]. *)
Definition entry_at (depth : nat) (path : string) (p : printed) : Prop :=
  match p with
  | Header _ => False
  | Entry _ _ _ d q => d = depth /\ q = path
  end.

Global Instance entry_at_dec depth path p : Decision (entry_at depth path p).
Proof. destruct p; simpl; apply _. Defined.

(** A line printed at [depth] or deeper. *)
Definition below (depth : nat) (p : printed) : Prop :=
  match p with
  | Header _ => False
  | Entry _ _ _ d _ => (depth <= d)%nat
  end.

(** The length of the longest key. *)
Definition max_len (ft : gmap string node) : nat :=
  max_list (String.length <$> (map_to_list ft).*1).

(** The entries that the recursion of [print_tree] can come to from [root]. *)
Inductive reachable (ft : gmap string node) (root : string) : string -> Prop :=
  | reachable_root : reachable ft root root
  | reachable_child k n c :
      reachable ft root k -> ft !! k = Some n -> c ∈ children n ->
      reachable ft root c.

(** Every child is an entry. *)
Definition closed (ft : gmap string node) : Prop :=
  forall k n c, ft !! k = Some n -> c ∈ children n -> is_Some (ft !! c).

(** The path of a printed line. *)
Definition printed_path (p : printed) : option string :=
  match p with
  | Header _ => None
  | Entry _ _ _ _ path => Some path
  end.

(** The same run under another threshold and view. *)
Definition with_hide (h : Z) (env : environment) : environment :=
  Env h (tree_view env) (contracts_enabled env).

(** What a state holds is well formed. *)
Definition scanning_ok (st : scanning) : Prop :=
  match st with
  | Seek => True
  | InDigits ds | InSpaces ds =>
      ds <> EmptyString /\ all_chars is_digit ds = true
  | InPath ds p =>
      ds <> EmptyString /\ all_chars is_digit ds = true
      /\ all_chars (fun c => negb (is_space c)) p = true
  end.

(** No character of [s] is the blank that [split(' ')] splits at. *)
Definition no_blank (s : string) : bool :=
  all_chars (fun c => negb (Ascii.eqb c " ")) s.

(** The mantissa of the double [100.0], [100 * 2 ^ 46]. *)
Definition m100 : positive := 7036874417766400.

(** The path of a line lies [depth] directory names below [root]. *)
Definition depth_to (root : string) (p : printed) : Prop :=
  match p with
  | Header _ => True
  | Entry _ _ _ depth path => Nat.iter depth dirname path = root
  end.

(** The line at index [i] of [l] is the line of [path] at depth [top] that
    opens [l], or a line for its directory name stands above it, one level
    up. *)
Definition nested (top : nat) (path : string) (l : list printed) : Prop :=
  forall (i : nat) ps lg pct d c,
    l !! i = Some (Entry ps lg pct d c) ->
    (i = O /\ d = top /\ c = path)
    \/ exists (j : nat) ps' lg' pct' d',
         (j < i)%nat /\ d = S d'
         /\ l !! j = Some (Entry ps' lg' pct' d' (dirname c)).

(** The depth of a printed line. *)
Definition printed_level (p : printed) : option nat :=
  match p with
  | Header _ => None
  | Entry _ _ _ depth _ => Some depth
  end.

(** The entry of [c] passes the test of line 98. *)
Definition shown (env : environment) (ft : gmap string node) (total : Z)
    (c : string) : bool :=
  match ft !! c with
  | Some n =>
      match percentage (size n) total with
      | Ok pct => negb (pct <? hide env)
      | Raise _ => false
      end
  | None => false
  end.

(** Measurement lists used below. *)
Definition only_a : list measurement := [(100%N, "/r/a")].
Definition only_b : list measurement := [(5%N, "/r/a/b")].
Definition r_a_b : list measurement :=
  [(200%N, "/r"); (100%N, "/r/a"); (100%N, "/r/b")].
Definition four_children : list measurement :=
  [(9%N, "/r"); (5%N, "/r/a"); (7%N, "/r/b"); (5%N, "/r/c"); (9%N, "/r/d")].
Definition twice : list measurement :=
  [(9%N, "/r"); (5%N, "/r/a"); (5%N, "/r/a"); (1%N, "/r/a/b"); (1%N, "/r/a/b")].


(** [four_children] after the pass in descending order. *)
Definition four_sorted : gmap string node :=
  {[ "/r" := Node ["/r/d"; "/r/b"; "/r/a"; "/r/c"] 9 (Some "4.50Kb");
     "/r/a" := Node [] 5 (Some "2.50Kb");
     "/r/b" := Node [] 7 (Some "3.50Kb");
     "/r/c" := Node [] 5 (Some "2.50Kb");
     "/r/d" := Node [] 9 (Some "4.50Kb") ]}.

(** * Properties *)

(** ** The division loop *)

Lemma divide_loop_spec fuel : forall rb count,
  0 <= rb -> rb < 2 ^ Z.of_nat (S fuel) ->
  exists k : nat,
    divide_loop (S fuel) rb count
      = Some (rb / 1024 ^ Z.of_nat k, (count + k)%nat)
    /\ rb / 1024 ^ Z.of_nat k < 1024
    /\ ((0 < k)%nat -> 1024 ^ Z.of_nat k <= rb).
Proof.
  induction fuel as [|fuel IH]; intros rb count Hrb Hlt;
    cbn [divide_loop]; destruct (Z.eqb_spec (rb / 1024) 0) as [Hz|Hnz].
  1, 3: exists O; rewrite Nat.add_0_r; change (1024 ^ Z.of_nat 0) with 1;
    rewrite Z.div_1_r; split; [done|]; split; [|lia];
    apply Z.div_small_iff in Hz; lia.
  - change (2 ^ Z.of_nat 1) with 2 in Hlt.
    rewrite Z.div_small in Hnz by lia. done.
  - assert (Hq : 0 <= rb / 1024) by (apply Z.div_pos; lia).
    destruct (IH (rb / 1024) (S count) Hq) as (k & Hk & Hsmall & Hbig).
    { apply Z.div_lt_upper_bound; [lia|].
      rewrite (Nat2Z.inj_succ (S fuel)), Z.pow_succ_r in Hlt by lia. lia. }
    assert (Hpow : 1024 ^ Z.of_nat (S k) = 1024 * 1024 ^ Z.of_nat k)
      by (rewrite Nat2Z.inj_succ, Z.pow_succ_r; lia).
    assert (Hpos : 0 < 1024 ^ Z.of_nat k) by (apply Z.pow_pos_nonneg; lia).
    assert (Hdd : rb / 1024 / 1024 ^ Z.of_nat k = rb / 1024 ^ Z.of_nat (S k))
      by (rewrite Hpow, Z.div_div by lia; done).
    exists (S k). cbn [divide_loop] in Hk. rewrite Hk, Hdd.
    replace (S count + k)%nat with (count + S k)%nat by lia.
    split; [done|]. split; [lia|]. intros _. rewrite Hpow.
    destruct k as [|k].
    + change (1024 ^ Z.of_nat 0) with 1.
      destruct (Z_lt_le_dec rb 1024) as [Hs|]; [|lia].
      rewrite Z.div_small in Hnz by lia. done.
    + assert (1024 ^ Z.of_nat (S k) <= rb / 1024) by (apply Hbig; lia).
      pose proof (Z.mul_div_le rb 1024). lia.
Qed.

Lemma loop_fuel_enough byts : 0 <= byts -> byts < 2 ^ Z.of_nat (loop_fuel byts).
Proof.
  intros H. unfold loop_fuel. rewrite Nat2Z.inj_succ, Z2Nat.id by apply Z.log2_nonneg.
  destruct (Z.eq_dec byts 0) as [->|]; [done|].
  apply Z.log2_spec. lia.
Qed.

(** The loop of [bytes_to_readable] terminates on every byte count that is
    not negative, with the quotient of [count] divisions in hand. *)
Lemma divide_loop_total byts :
  0 <= byts ->
  let count := division_count byts in
  divide_loop (loop_fuel byts) byts 0
    = Some (byts / 1024 ^ Z.of_nat count, count)
  /\ byts / 1024 ^ Z.of_nat count < 1024
  /\ ((0 < count)%nat -> 1024 ^ Z.of_nat count <= byts).
Proof.
  intros H.
  destruct (divide_loop_spec _ byts O H (loop_fuel_enough byts H))
    as (k & Hk & Hsmall & Hbig).
  unfold division_count. fold (loop_fuel byts) in Hk. rewrite Hk. simpl. done.
Qed.

Lemma division_count_upper byts :
  0 <= byts -> byts < 1024 * 1024 ^ Z.of_nat (division_count byts).
Proof.
  intros H. destruct (divide_loop_total byts H) as (_ & Hsmall & _).
  set (c := division_count byts) in *.
  assert (Hpos : 0 < 1024 ^ Z.of_nat c) by (apply Z.pow_pos_nonneg; lia).
  pose proof (Z.mul_succ_div_gt byts (1024 ^ Z.of_nat c) Hpos). nia.
Qed.

Lemma division_count_small byts :
  0 <= byts -> byts < 1024 ^ 5 -> (division_count byts <= 4)%nat.
Proof.
  intros H Hlt. destruct (divide_loop_total byts H) as (_ & _ & Hbig).
  destruct (le_lt_dec (division_count byts) 4) as [|Hgt]; [done|].
  assert (1024 ^ 5 <= 1024 ^ Z.of_nat (division_count byts))
    by (apply Z.pow_le_mono_r; lia).
  specialize (Hbig ltac:(lia)). lia.
Qed.

Lemma hundredths_upper byts count :
  0 <= byts -> byts < 1024 * 1024 ^ Z.of_nat count ->
  hundredths byts count <= 1024 * 100.
Proof.
  intros H Hlt. unfold hundredths.
  assert (Hpos : 0 < 1024 ^ Z.of_nat count) by (apply Z.pow_pos_nonneg; lia).
  apply Z.lt_succ_r, Z.div_lt_upper_bound; lia.
Qed.

Lemma bytes_to_readable_small (blocks : N) :
  Z.of_N blocks * 512 < 1024 ^ 5 ->
  (division_count (Z.of_N blocks * 512) <= 4)%nat
  /\ is_Some (labels !! division_count (Z.of_N blocks * 512))
  /\ exists s, bytes_to_readable blocks = Ok s.
Proof.
  intros Hlt. set (count := division_count (Z.of_N blocks * 512)).
  assert (Hc : (count <= 4)%nat) by (apply division_count_small; lia).
  assert (Hl : is_Some (labels !! count)).
  { apply lookup_lt_is_Some. simpl. lia. }
  split; [done|]. split; [done|]. destruct Hl as [label Hl].
  unfold bytes_to_readable. fold count. rewrite Hl. eauto.
Qed.

(** C6 (as amended). For every block count the loop of [bytes_to_readable]
    stops after [count] divisions, each made while the running byte count was
    at least 1024, and the exact quotient [byts / 1024^count] is strictly
    below 1024; [bytes_to_readable] returns below [1024^5] bytes, and
    whenever it returns, what it returns is the two-decimal text of that
    quotient rounded to the nearest hundredth, at most 1024.00, followed by
    the label of [count]. *)
Theorem bytes_to_readable_quotient_below_1024 (blocks : N) :
  let byts := Z.of_N blocks * 512 in
  let count := division_count byts in
  divide_loop (loop_fuel byts) byts 0
    = Some (byts / 1024 ^ Z.of_nat count, count)
  /\ ((0 < count)%nat -> 1024 ^ Z.of_nat count <= byts)
  /\ (inject_Z byts / inject_Z (1024 ^ Z.of_nat count) < inject_Z 1024)%Q
  /\ (byts < 1024 ^ 5 -> exists s, bytes_to_readable blocks = Ok s)
  /\ forall s, bytes_to_readable blocks = Ok s ->
       exists h label,
         s = (fixed2 h ++ label)%string
         /\ labels !! count = Some label
         /\ 2 * Z.abs (100 * byts - h * 1024 ^ Z.of_nat count)
            <= 1024 ^ Z.of_nat count
         /\ 0 <= h <= 1024 * 100.
Proof.
  intros byts count.
  assert (H : 0 <= byts) by (unfold byts; lia).
  destruct (divide_loop_total byts H) as (Hloop & _ & Hbig).
  pose proof (division_count_upper byts H) as Hup. fold count in Hloop, Hbig, Hup.
  assert (Hpos : 0 < 1024 ^ Z.of_nat count) by (apply Z.pow_pos_nonneg; lia).
  split; [done|]. split; [done|]. split.
  - apply Qlt_shift_div_r.
    + change 0%Q with (inject_Z 0). by rewrite <- Zlt_Qlt.
    + rewrite <- inject_Z_mult, <- Zlt_Qlt. done.
  - split; [intros Hlt; by destruct (bytes_to_readable_small blocks Hlt) as (_ & _ & ?)|].
    intros s. unfold bytes_to_readable. fold byts count.
    destruct (labels !! count) as [label|] eqn:Hl.
    2: { by destruct (PyFloat.of_int (1024 ^ Z.of_nat count)),
                     (PyFloat.of_int byts). }
    intros [= <-]. exists (hundredths byts count), label.
    split; [done|]. split; [done|].
    pose proof (hundredths_upper byts count H Hup) as Hh.
    unfold hundredths in *. set (P := 1024 ^ Z.of_nat count) in *.
    pose proof (Z.div_mod (200 * byts + P) (2 * P) ltac:(lia)) as Hdm.
    pose proof (Z.mod_pos_bound (200 * byts + P) (2 * P) ltac:(lia)) as Hmod.
    assert (0 <= (200 * byts + P) / (2 * P)) by (apply Z.div_pos; lia).
    split; lia.
Qed.

Lemma bytes_to_readable_quotient_below_1024_witness :
  (0 < division_count (Z.of_N 200 * 512))%nat
  /\ 1024 ^ Z.of_nat (division_count (Z.of_N 200 * 512)) <= Z.of_N 200 * 512
  /\ bytes_to_readable 200 = Ok "100.00Kb"
  /\ exists h label,
       "100.00Kb" = (fixed2 h ++ label)%string
       /\ labels !! division_count (Z.of_N 200 * 512) = Some label
       /\ 2 * Z.abs (100 * (Z.of_N 200 * 512)
                     - h * 1024 ^ Z.of_nat (division_count (Z.of_N 200 * 512)))
          <= 1024 ^ Z.of_nat (division_count (Z.of_N 200 * 512))
       /\ 0 <= h <= 1024 * 100.
Proof.
  assert (H : (0 < division_count (Z.of_N 200 * 512))%nat)
    by (vm_compute; lia).
  assert (Hs : bytes_to_readable 200 = Ok "100.00Kb") by (vm_compute; reflexivity).
  destruct (bytes_to_readable_quotient_below_1024 200) as (_ & Hbig & _ & _ & Hout).
  split; [exact H|]. split; [exact (Hbig H)|]. split; [exact Hs|].
  exact (Hout _ Hs).
Defined.

(** C6, the claim as written fails: 2097151 blocks are 1073741312 bytes, two
    divisions leave 1023, and the quotient 1023.9995... is printed as
    1024.00 in front of the unit. *)
Lemma bytes_to_readable_prints_1024 :
  bytes_to_readable 2097151 = Ok "1024.00Mb"
  /\ division_count (2097151 * 512) = 2%nat
  /\ ~ hundredths (2097151 * 512) (division_count (2097151 * 512)) < 1024 * 100.
Proof. split; [|split]; [vm_compute; reflexivity ..|]. vm_compute. discriminate. Qed.

(** C7. Below [1024^5] bytes the loop divides at most four times and the
    label lookup succeeds; 2^41 blocks are exactly [1024^5] bytes, the loop
    divides a fifth time and [labels[5]] raises [IndexError]. *)
Theorem bytes_to_readable_label_lookup :
  (forall blocks : N,
     Z.of_N blocks * 512 < 1024 ^ 5 ->
     let count := division_count (Z.of_N blocks * 512) in
     (count <= 4)%nat /\ is_Some (labels !! count)
     /\ exists s, bytes_to_readable blocks = Ok s)
  /\ (exists blocks : N,
        1024 ^ 5 <= Z.of_N blocks * 512
        /\ division_count (Z.of_N blocks * 512) = 5%nat
        /\ labels !! division_count (Z.of_N blocks * 512) = None
        /\ bytes_to_readable blocks = Raise IndexError).
Proof.
  split.
  - intros blocks Hlt count.
    destruct (bytes_to_readable_small blocks Hlt) as (Hc & Hl & s & Hs). eauto.
  - exists (2 ^ 41)%N. repeat split; vm_compute; congruence.
Qed.

Lemma bytes_to_readable_label_lookup_witness :
  Z.of_N 200 * 512 < 1024 ^ 5
  /\ (division_count (Z.of_N 200 * 512) <= 4)%nat
  /\ bytes_to_readable 200 = Ok "100.00Kb".
Proof.
  assert (H : Z.of_N 200 * 512 < 1024 ^ 5) by reflexivity.
  split; [exact H|].
  destruct (proj1 bytes_to_readable_label_lookup 200%N H) as (Hc & _ & _).
  split; [exact Hc|]. vm_compute. reflexivity.
Defined.

(** ** Paths *)

Lemma all_slashes_rstrip s : all_slashes s = true -> rstrip_slash s = EmptyString.
Proof.
  induction s as [|c s IH]; [done|]. simpl. intros [Hc Hs]%andb_prop.
  rewrite IH, Hc; done.
Qed.

Lemma rstrip_all_slashes s : rstrip_slash s = EmptyString -> all_slashes s = true.
Proof.
  induction s as [|c s IH]; [done|]. simpl.
  destruct (rstrip_slash s); [|done].
  destruct (Ascii.eqb c slash); [|done]. intros _. by rewrite IH.
Qed.

Lemma rstrip_slash_length s :
  (String.length (rstrip_slash s) <= String.length s)%nat.
Proof.
  induction s as [|c s IH]; [done|]. simpl.
  destruct (rstrip_slash s); [destruct (Ascii.eqb c slash)|]; simpl in *; lia.
Qed.

(** What [p.rfind('/') + 1] cuts off: either the head is all of [p], a run of
    slashes, or it is shorter than [p], or stripping it makes it shorter. *)
Lemma rstrip_slash_cons c s :
  rstrip_slash (String c s)
  = match rstrip_slash s with
    | EmptyString => if Ascii.eqb c slash then EmptyString else String c EmptyString
    | r => String c r
    end.
Proof. reflexivity. Qed.

Lemma all_slashes_cons c s :
  all_slashes (String c s) = Ascii.eqb c slash && all_slashes s.
Proof. reflexivity. Qed.

Lemma rsplit_slash_head p :
  let head := fst (rsplit_slash p) in
  (all_slashes p = true -> head = p)
  /\ (all_slashes p = false ->
        (String.length head <= String.length p)%nat
        /\ (all_slashes head = true -> (String.length head < String.length p)%nat)
        /\ (all_slashes head = false ->
              (String.length (rstrip_slash head) < String.length head)%nat)).
Proof.
  induction p as [|c rest IH]; [done|]. cbn [rsplit_slash all_slashes].
  destruct (rsplit_slash rest) as [head' tail'] eqn:E. cbn [fst] in IH.
  destruct IH as [IHall IHnot].
  assert (Hstrip' : all_slashes head' = false ->
    exists a r, rstrip_slash head' = String a r).
  { intros Hh. destruct (rstrip_slash head') eqn:Hr; [|eauto].
    apply rstrip_all_slashes in Hr. congruence. }
  destruct (all_slashes rest) eqn:Hrest.
  - (* the rest is a run of slashes: it is its own head *)
    rewrite (IHall eq_refl). clear IHall IHnot Hstrip' E head'.
    destruct rest as [|c' rest'].
    + destruct (Ascii.eqb c slash) eqn:Hc; cbn; rewrite ?Hc; cbn.
      * apply Ascii.eqb_eq in Hc. subst c. split; [done|]. intros [=].
      * split; [intros [=]|]. intros _. repeat split; intros; try lia; done.
    + cbn [fst]. rewrite andb_true_r.
      destruct (Ascii.eqb c slash) eqn:Hc.
      * split; [done|]. intros [=].
      * split; [intros [=]|]. intros _. split; [done|].
        rewrite all_slashes_cons, Hc. cbn [andb]. split; [intros [=]|]. intros _.
        rewrite rstrip_slash_cons, (all_slashes_rstrip _ Hrest), Hc. cbn. lia.
  - rewrite andb_false_r. split; [intros [=]|]. intros _.
    destruct (IHnot eq_refl) as (Hle & Hall & Hstrip). clear IHall IHnot.
    destruct head' as [|c' head''].
    + destruct (Ascii.eqb c slash) eqn:Hc; cbn; rewrite ?Hc; cbn.
      * destruct rest; [done|]. cbn. repeat split; intros; try lia; done.
      * repeat split; intros; try lia; done.
    + cbn [fst String.length] in *. split; [lia|].
      rewrite all_slashes_cons.
      destruct (all_slashes (String c' head'')) eqn:Hh.
      * destruct (Ascii.eqb c slash) eqn:Hc; cbn [andb].
        -- split; [|intros [=]]. intros _. specialize (Hall eq_refl). lia.
        -- split; [intros [=]|]. intros _.
           rewrite rstrip_slash_cons, (all_slashes_rstrip _ Hh), Hc. cbn. lia.
      * rewrite andb_false_r. split; [intros [=]|]. intros _.
        destruct (Hstrip' eq_refl) as (a & r & Hr).
        specialize (Hstrip eq_refl).
        rewrite Hr in Hstrip. rewrite rstrip_slash_cons, Hr.
        cbn [String.length] in *. lia.
Qed.

(** [dirname] returns its argument exactly on the runs of slashes (the empty
    path included) and a strictly shorter path otherwise. *)
Lemma dirname_all_slashes p : all_slashes p = true -> dirname p = p.
Proof.
  intros H. unfold dirname.
  rewrite (proj1 (rsplit_slash_head p) H), H, andb_false_r. done.
Qed.

Lemma dirname_shorter p :
  all_slashes p = false -> (String.length (dirname p) < String.length p)%nat.
Proof.
  intros H. unfold dirname.
  destruct (proj2 (rsplit_slash_head p) H) as (Hle & Hall & Hstrip).
  destruct (all_slashes (fst (rsplit_slash p))) eqn:Hh.
  - rewrite andb_false_r. by apply Hall.
  - destruct (String.eqb_spec (fst (rsplit_slash p)) EmptyString) as [He|Hne].
    + rewrite He in Hh. done.
    + simpl. specialize (Hstrip eq_refl). lia.
Qed.

Lemma dirname_fixed p : dirname p = p <-> all_slashes p = true.
Proof.
  split; [|apply dirname_all_slashes]. intros H.
  destruct (all_slashes p) eqn:E; [done|].
  pose proof (dirname_shorter p E) as Hlt. rewrite H in Hlt. lia.
Qed.

(** ** Sorting *)

Section stable_sort.
Variable reverse : bool.

Let R (x y : N * string) : Prop := in_order reverse (fst x) (fst y) = true.

Lemma in_order_total a b :
  in_order reverse a b = false -> in_order reverse b a = true.
Proof. unfold in_order. destruct reverse; rewrite ?N.leb_gt, ?N.leb_le; lia. Qed.

Lemma in_order_trans a b c :
  in_order reverse a b = true -> in_order reverse b c = true ->
  in_order reverse a c = true.
Proof. unfold in_order. destruct reverse; rewrite ?N.leb_gt, ?N.leb_le; lia. Qed.

Lemma in_order_false_ne a b : in_order reverse a b = false -> a <> b.
Proof. unfold in_order. destruct reverse; rewrite ?N.leb_gt, ?N.leb_le; lia. Qed.

Lemma insert_sorted_perm x l : insert_sorted reverse x l ≡ₚ x :: l.
Proof.
  induction l as [|y l IH]; [done|]. simpl.
  destruct (in_order reverse x.1 y.1); [done|].
  rewrite IH. apply Permutation_swap.
Qed.

Lemma insert_sorted_sorted x l :
  StronglySorted R l -> StronglySorted R (insert_sorted reverse x l).
Proof.
  induction 1 as [|y l Hl IH Hy]; simpl.
  - repeat constructor.
  - destruct (in_order reverse x.1 y.1) eqn:E.
    + constructor; [by constructor|]. constructor; [done|].
      eapply Forall_impl; [exact Hy|]. intros z Hz.
      unfold R in *. by eapply in_order_trans.
    + constructor; [done|]. rewrite insert_sorted_perm.
      constructor; [|done]. by apply in_order_total.
Qed.

Lemma insert_sorted_stable k x l :
  filter (fun y => y.1 = k) (insert_sorted reverse x l)
  = filter (fun y => y.1 = k) (x :: l).
Proof.
  induction l as [|y l IH]; [done|]. simpl.
  destruct (in_order reverse x.1 y.1) eqn:E; [done|].
  apply in_order_false_ne in E.
  rewrite (filter_cons _ y), IH, !filter_cons.
  repeat case_decide; congruence.
Qed.

Lemma stable_sort_perm l : stable_sort reverse l ≡ₚ l.
Proof.
  induction l as [|x l IH]; [done|]. unfold stable_sort in *. simpl.
  by rewrite insert_sorted_perm, IH.
Qed.

Lemma stable_sort_sorted l : StronglySorted R (stable_sort reverse l).
Proof.
  induction l as [|x l IH]; [constructor|]. by apply insert_sorted_sorted.
Qed.

Lemma stable_sort_stable k l :
  filter (fun y => y.1 = k) (stable_sort reverse l)
  = filter (fun y => y.1 = k) l.
Proof.
  induction l as [|x l IH]; [done|]. unfold stable_sort in *. simpl.
  rewrite insert_sorted_stable, !filter_cons, IH. done.
Qed.

Lemma StronglySorted_lookup_lt l (i j : nat) x y :
  StronglySorted R l -> (i < j)%nat -> l !! i = Some x -> l !! j = Some y ->
  R x y.
Proof.
  intros Hl. revert i j. induction Hl as [|z l Hl IH Hz]; intros i j Hij Hi Hj.
  - by rewrite lookup_nil in Hi.
  - destruct j as [|j]; [lia|]. destruct i as [|i]; simpl in *.
    + simplify_eq. rewrite Forall_forall in Hz. apply Hz.
      by eapply list_elem_of_lookup_2.
    + eapply IH; [|done..]. lia.
Qed.
End stable_sort.

Section decorate.
Variable file_tree : gmap string node.

Let Q (x : N * string) : Prop := child_size file_tree x.2 = Some x.1.

Lemma decorate_Ok l d :
  decorate file_tree l = Ok d -> snd <$> d = l /\ Forall Q d.
Proof.
  revert d. induction l as [|v l IH]; intros d; simpl.
  - intros [= <-]. by split.
  - destruct (file_tree !! v) as [n|] eqn:Hv; [|done].
    destruct (decorate file_tree l) as [d'|]; [|done]. intros [= <-].
    destruct (IH d' eq_refl) as [Hs HQ]. split; [by rewrite fmap_cons, Hs|].
    constructor; [|done]. unfold Q, child_size. simpl. by rewrite Hv.
Qed.

Lemma decorate_closed l :
  (forall v, v ∈ l -> is_Some (file_tree !! v)) ->
  exists d, decorate file_tree l = Ok d.
Proof.
  induction l as [|v l IH]; intros H; simpl; [eauto|].
  destruct (H v) as [n ->]; [left|].
  destruct IH as [d ->]; [|eauto]. intros w Hw. apply H. by right.
Qed.

Lemma filter_decorated s d :
  Forall Q d ->
  filter (fun v => child_size file_tree v = Some s) (snd <$> d)
  = snd <$> filter (fun x => x.1 = s) d.
Proof.
  induction 1 as [|[sx vx] d Hx Hd IH]; [done|]. unfold Q in Hx.
  rewrite fmap_cons, !filter_cons, IH. cbn [fst snd] in *.
  repeat case_decide; simplify_eq; try done; congruence.
Qed.

(** [sorted] returns a stable rearrangement in the requested order. *)
Lemma sorted_Ok reverse l cs :
  sorted file_tree reverse l = Ok cs ->
  cs ≡ₚ l /\ sizes_in_order reverse file_tree cs
  /\ forall s, of_size file_tree s cs = of_size file_tree s l.
Proof.
  unfold sorted. destruct (decorate file_tree l) as [d|] eqn:Hd; [|done].
  intros [= <-]. destruct (decorate_Ok l d Hd) as [Hs HQ].
  assert (HQ' : Forall Q (stable_sort reverse d))
    by (by rewrite stable_sort_perm).
  split; [by rewrite stable_sort_perm, Hs|]. split.
  - intros i j a b Hij Ha Hb.
    rewrite list_lookup_fmap in Ha, Hb.
    destruct (stable_sort reverse d !! i) as [[sa a']|] eqn:Hi; [|done].
    destruct (stable_sort reverse d !! j) as [[sb b']|] eqn:Hj; [|done].
    simpl in *. simplify_eq. rewrite Forall_forall in HQ'.
    exists sa, sb. split; [|split].
    + apply (HQ' (sa, a)). by eapply list_elem_of_lookup_2.
    + apply (HQ' (sb, b)). by eapply list_elem_of_lookup_2.
    + eapply (StronglySorted_lookup_lt reverse _ i j (sa, a) (sb, b));
        [apply stable_sort_sorted|done..].
  - intros s. unfold of_size.
    rewrite filter_decorated, stable_sort_stable, <- filter_decorated, Hs; done.
Qed.
End decorate.

Lemma decorate_ext ft1 ft2 l :
  (forall v, child_size ft1 v = child_size ft2 v) ->
  decorate ft1 l = decorate ft2 l.
Proof.
  intros H. induction l as [|v l IH]; [done|]. simpl. rewrite IH.
  specialize (H v). unfold child_size in H.
  destruct (ft1 !! v), (ft2 !! v); simpl in H; simplify_eq; [|done].
  by rewrite H.
Qed.

Lemma of_size_ext ft1 ft2 s l :
  (forall v, child_size ft1 v = child_size ft2 v) ->
  of_size ft1 s l = of_size ft2 s l.
Proof.
  intros H. unfold of_size. induction l as [|v l IH]; [done|].
  rewrite !filter_cons, IH, H. done.
Qed.

Lemma sorted_ext ft1 ft2 reverse l :
  (forall v, child_size ft1 v = child_size ft2 v) ->
  sorted ft1 reverse l = sorted ft2 reverse l.
Proof. intros H. unfold sorted. by rewrite (decorate_ext ft1 ft2). Qed.

(** ** The sorting and formatting pass *)

Lemma sort_entries_spec order ft ks : forall cur lg ft' lg',
  NoDup ks ->
  (forall v, child_size cur v = child_size ft v) ->
  (forall k, k ∈ ks -> cur !! k = ft !! k) ->
  sort_entries order ks (cur, lg) = Ok (ft', lg') ->
  (forall k, k ∈ ks ->
     exists n n', ft !! k = Some n /\ ft' !! k = Some n' /\ formatted order ft n n')
  /\ (forall k, k ∉ ks -> ft' !! k = cur !! k)
  /\ (forall v, child_size ft' v = child_size ft v).
Proof.
  induction ks as [|k ks IH]; intros cur lg ft' lg' Hnd Hsz Hcur; simpl.
  - intros [= <- <-]. split; [|done]. intros k Hk. by apply elem_of_nil in Hk.
  - apply NoDup_cons in Hnd as [Hk Hnd].
    destruct (cur !! k) as [n|] eqn:Hn; [|done].
    destruct (sorted cur order (children n)) as [cs|] eqn:Hcs; [|done].
    destruct (bytes_to_readable (size n)) as [ps|] eqn:Hps; [|done].
    intros Hrest.
    assert (Hft : ft !! k = Some n) by (rewrite <- Hcur; [done|left]).
    apply IH in Hrest as (Hin & Hout & Hsz'); [| done | |].
    + split; [|split; [|done]].
      * intros k' [->|Hk']%elem_of_cons; [|by apply Hin].
        exists n, (Node cs (size n) (Some ps)).
        rewrite (Hout k Hk), lookup_insert_eq. split; [done|]. split; [done|].
        split; [|split; [done|eauto]]. simpl.
        by rewrite <- (sorted_ext cur ft).
      * intros k' Hk'. apply not_elem_of_cons in Hk' as [Hne Hk'].
        by rewrite (Hout k' Hk'), lookup_insert_ne.
    + intros v. unfold child_size. destruct (decide (k = v)) as [<-|Hne].
      * rewrite lookup_insert_eq. simpl. by rewrite Hft.
      * rewrite lookup_insert_ne by done. apply Hsz.
    + intros k' Hk'. rewrite lookup_insert_ne by (intros <-; done).
      apply Hcur. by right.
Qed.

Lemma sort_and_format_spec order ft ft' lg :
  sort_and_format order ft = Ok (ft', lg) ->
  (forall k n, ft !! k = Some n ->
     exists n', ft' !! k = Some n' /\ formatted order ft n n')
  /\ (forall k, ft !! k = None -> ft' !! k = None).
Proof.
  intros H. apply sort_entries_spec with (ft := ft) in H as (Hin & Hout & _);
    [|apply NoDup_fst_map_to_list|done|done].
  assert (Hkeys : forall k, k ∈ (map_to_list ft).*1 <-> is_Some (ft !! k)).
  { intros k. rewrite list_elem_of_fmap. split.
    - intros ([k' n] & -> & Hk%elem_of_map_to_list). by exists n.
    - intros [n Hn]. exists (k, n). by rewrite elem_of_map_to_list. }
  split.
  - intros k n Hn. destruct (Hin k) as (n0 & n' & Hn0 & Hn' & Hf).
    { apply Hkeys. eauto. }
    simplify_eq. eauto.
  - intros k Hn. rewrite Hout; [done|]. rewrite Hkeys, Hn. by intros [? ?].
Qed.

Lemma formatted_children order ft n n' :
  formatted order ft n n' -> children n' ≡ₚ children n.
Proof. intros (Hs & _). by apply sorted_Ok in Hs as (? & _). Qed.

Lemma sort_and_format_lookup order ft ft' lg k n' :
  sort_and_format order ft = Ok (ft', lg) ->
  ft' !! k = Some n' ->
  exists n, ft !! k = Some n /\ formatted order ft n n'.
Proof.
  intros H Hn'. destruct (sort_and_format_spec _ _ _ _ H) as [Hin Hout].
  destruct (ft !! k) as [n|] eqn:Hn.
  - destruct (Hin k n Hn) as (n0 & Hn0 & Hf). simplify_eq. eauto.
  - rewrite (Hout k Hn) in Hn'. done.
Qed.

Lemma sort_and_format_child_size order ft ft' lg v :
  sort_and_format order ft = Ok (ft', lg) ->
  child_size ft' v = child_size ft v.
Proof.
  intros H. destruct (sort_and_format_spec _ _ _ _ H) as [Hin Hout].
  unfold child_size. destruct (ft !! v) as [n|] eqn:Hn.
  - destruct (Hin v n Hn) as (n' & -> & _ & Hs & _). simpl. by rewrite Hs.
  - by rewrite (Hout v Hn).
Qed.

(** ** The tree builder *)

Lemma build_snoc ms m root :
  build (ms ++ [m]) root = ingest root (build ms root) m.
Proof. unfold build. by rewrite fold_left_app. Qed.

Lemma build_snoc_cons pre m post m' root :
  build (pre ++ m :: post ++ [m']) root
  = ingest root (build (pre ++ m :: post) root) m'.
Proof. rewrite app_comm_cons, app_assoc. apply build_snoc. Qed.

Lemma ingest_root root t ft s :
  ingest root (t, ft) (s, root)
  = (Z.of_N s,
     <[root := match ft !! root with
               | Some n => set_size s n
               | None => new_node s
               end]> ft).
Proof. unfold ingest. rewrite decide_True by done. by destruct (ft !! root). Qed.

Lemma ingest_other_total root t ft s p :
  p <> root -> (ingest root (t, ft) (s, p)).1 = t.
Proof. intros H. unfold ingest. by rewrite decide_False. Qed.

(** The entries after one measurement of a path other than the root: its own
    node takes the measured size, its directory gains it as a child. *)
Lemma ingest_other_lookup root t ft s p k :
  p <> root ->
  (ingest root (t, ft) (s, p)).2 !! k
  = if decide (k = p) then
      Some (set_size s
              ((if decide (dirname p = p) then append_child p else id)
                 (default (new_node s) (ft !! p))))
    else if decide (k = dirname p) then
      Some (append_child p (default (new_node 0) (ft !! k)))
    else ft !! k.
Proof.
  intros H. unfold ingest. rewrite decide_False by done. cbn [snd].
  set (ft1 := match ft !! p with Some _ => ft | None => <[p:=new_node s]> ft end).
  set (ft2 := match ft1 !! dirname p with
              | Some _ => ft1 | None => <[dirname p:=new_node 0]> ft1 end).
  assert (H1 : forall k', ft1 !! k'
    = if decide (k' = p) then Some (default (new_node s) (ft !! p)) else ft !! k').
  { intros k'. unfold ft1. destruct (ft !! p) eqn:E; case_decide; subst;
      by rewrite ?lookup_insert_eq, ?lookup_insert_ne. }
  assert (H2 : forall k', ft2 !! k'
    = if decide (k' = p) then Some (default (new_node s) (ft !! p))
      else if decide (k' = dirname p) then Some (default (new_node 0) (ft !! k'))
      else ft !! k').
  { intros k'. unfold ft2. destruct (ft1 !! dirname p) as [d|] eqn:E.
    - rewrite H1. repeat case_decide; subst; try done.
      rewrite H1, decide_False in E by done. by rewrite E.
    - destruct (decide (k' = dirname p)) as [->|Hne].
      + rewrite lookup_insert_eq. rewrite H1 in E.
        case_decide; [done|]. by rewrite E.
      + rewrite lookup_insert_ne, H1 by done. done. }
  rewrite !lookup_alter, !H2.
  repeat case_decide; simplify_eq; done.
Qed.

Lemma ingest_dom_mono root st m k :
  is_Some (st.2 !! k) -> is_Some ((ingest root st m).2 !! k).
Proof.
  destruct st as [t ft], m as [s p]. cbn [snd]. intros Hk.
  destruct (decide (p = root)) as [->|Hne].
  - rewrite ingest_root. cbn [snd]. destruct (decide (root = k)) as [->|].
    + by rewrite lookup_insert_eq.
    + by rewrite lookup_insert_ne.
  - rewrite ingest_other_lookup by done. repeat case_decide; eauto.
Qed.

Lemma ingest_children_root root t ft s k n :
  (ingest root (t, ft) (s, root)).2 !! k = Some n ->
  (exists n0, ft !! k = Some n0 /\ children n = children n0)
  \/ (k = root /\ ft !! k = None /\ children n = []).
Proof.
  rewrite ingest_root. cbn [snd]. destruct (decide (root = k)) as [<-|Hne].
  - rewrite lookup_insert_eq. intros [= <-].
    destruct (ft !! root) as [n0|]; [left; eauto|right; eauto].
  - rewrite lookup_insert_ne by done. eauto.
Qed.

Lemma ingest_linked root st m :
  linked root st.2 -> linked root (ingest root st m).2.
Proof.
  destruct st as [t ft], m as [s p]. cbn [snd]. intros Hl k n c Hn Hc.
  assert (Hmono := ingest_dom_mono root (t, ft) (s, p)). cbn [snd] in Hmono.
  destruct (decide (p = root)) as [->|Hne].
  - destruct (ingest_children_root _ _ _ _ _ _ Hn)
      as [(n0 & Hn0 & Hch)|(_ & _ & Hch)]; rewrite Hch in Hc.
    + destruct (Hl k n0 c Hn0 Hc) as (? & ? & ?). eauto.
    + by apply elem_of_nil in Hc.
  - assert (Hp : is_Some ((ingest root (t, ft) (s, p)).2 !! p)).
    { rewrite ingest_other_lookup, decide_True by done. eauto. }
    rewrite ingest_other_lookup in Hn by done.
    assert (Hold : forall n0, ft !! k = Some n0 -> c ∈ children n0 ->
      c <> root /\ dirname c = k /\ is_Some ((ingest root (t, ft) (s, p)).2 !! c)).
    { intros n0 Hn0 Hc0. destruct (Hl k n0 c Hn0 Hc0) as (? & ? & ?). eauto. }
    destruct (decide (k = p)) as [->|Hkp].
    + injection Hn as <-. cbn [children set_size] in Hc.
      destruct (ft !! p) as [n0|] eqn:Hn0; cbn [default] in Hc;
        case_decide as Hd; cbn [append_child children new_node id] in Hc.
      * apply elem_of_app in Hc as [Hc| ->%list_elem_of_singleton]; eauto.
      * eauto.
      * apply elem_of_app in Hc as [Hc| ->%list_elem_of_singleton];
          [by apply elem_of_nil in Hc|eauto].
      * by apply elem_of_nil in Hc.
    + destruct (decide (k = dirname p)) as [->|Hkd]; [|eauto].
      injection Hn as <-. cbn [append_child children] in Hc.
      apply elem_of_app in Hc as [Hc| ->%list_elem_of_singleton]; [|eauto].
      destruct (ft !! dirname p) as [n0|] eqn:Hn0; cbn [default new_node children] in Hc;
        [eauto|by apply elem_of_nil in Hc].
Qed.

Lemma build_linked ms root : linked root (build ms root).2.
Proof.
  induction ms as [|m ms IH] using rev_ind.
  - intros k n c Hk. cbn in Hk. by rewrite lookup_empty in Hk.
  - rewrite build_snoc. by apply ingest_linked.
Qed.

Lemma ingest_child_size root t ft s q p :
  child_size (ingest root (t, ft) (s, q)).2 p
  = if decide (p = q) then Some s
    else match child_size ft p with
         | Some x => Some x
         | None => if decide (q <> root /\ p = dirname q) then Some 0%N else None
         end.
Proof.
  unfold child_size. destruct (decide (q = root)) as [->|Hq].
  - rewrite ingest_root. cbn [snd]. case_decide as Hp.
    + subst p. rewrite lookup_insert_eq. by destruct (ft !! root).
    + rewrite lookup_insert_ne by done. destruct (ft !! p); [done|].
      simpl. rewrite decide_False; [done|]. by intros [? _].
  - rewrite ingest_other_lookup by done. case_decide as Hp; [done|].
    case_decide as Hd.
    + destruct (ft !! p); [done|]. simpl. by rewrite decide_True.
    + destruct (ft !! p); [done|]. simpl. rewrite decide_False; [done|].
      by intros [_ ?].
Qed.

Lemma build_measured_size pre s p post root :
  p ∉ post.*2 ->
  child_size (build (pre ++ (s, p) :: post) root).2 p = Some s.
Proof.
  induction post as [|[s' q] post IH] using rev_ind; intros Hp.
  - rewrite build_snoc.
    destruct (build pre root) as [t ft]. by rewrite ingest_child_size, decide_True.
  - rewrite fmap_app, not_elem_of_app in Hp. destruct Hp as [Hp Hq].
    rewrite build_snoc_cons.
    specialize (IH Hp).
    destruct (build (pre ++ (s, p) :: post) root) as [t ft]. cbn [snd] in IH.
    rewrite ingest_child_size, decide_False, IH; [done|].
    intros ->. apply Hq. simpl. left.
Qed.

(** [total_size] is the size of the last measurement of the root, or the
    sentinel when there is none. *)
Lemma build_total_measured pre s post root :
  root ∉ post.*2 ->
  (build (pre ++ (s, root) :: post) root).1 = Z.of_N s.
Proof.
  induction post as [|[s' q] post IH] using rev_ind; intros Hp.
  - rewrite build_snoc. destruct (build pre root) as [t ft].
    by rewrite ingest_root.
  - rewrite fmap_app, not_elem_of_app in Hp. destruct Hp as [Hp Hq].
    rewrite build_snoc_cons.
    specialize (IH Hp).
    destruct (build (pre ++ (s, root) :: post) root) as [t ft]. cbn [fst] in IH.
    rewrite ingest_other_total; [done|].
    intros ->. apply Hq. simpl. left.
Qed.

Lemma build_total_missing ms root :
  root ∉ ms.*2 -> (build ms root).1 = -1.
Proof.
  induction ms as [|[s q] ms IH] using rev_ind; intros Hp; [done|].
  rewrite fmap_app, not_elem_of_app in Hp. destruct Hp as [Hp Hq].
  rewrite build_snoc. specialize (IH Hp).
  destruct (build ms root) as [t ft]. rewrite ingest_other_total; [done|].
  intros ->. apply Hq. simpl. left.
Qed.

(** An entry whose own path was never measured is a placeholder of size 0,
    made for the directory name of a measured path other than the root. *)
Lemma build_placeholder ms root k x :
  child_size (build ms root).2 k = Some x -> k ∉ ms.*2 ->
  x = 0%N /\ exists s p, (s, p) ∈ ms /\ p <> root /\ k = dirname p.
Proof.
  revert x. induction ms as [|[s q] ms IH] using rev_ind; intros x Hx Hk.
  - cbn in Hx. unfold child_size in Hx. by rewrite lookup_empty in Hx.
  - rewrite fmap_app, not_elem_of_app in Hk. destruct Hk as [Hk Hq].
    rewrite build_snoc in Hx. destruct (build ms root) as [t ft].
    rewrite ingest_child_size in Hx. cbn [snd] in IH.
    case_decide as Hkq; [subst; exfalso; apply Hq; simpl; left|].
    destruct (child_size ft k) as [y|] eqn:Hy.
    + injection Hx as <-. destruct (IH y eq_refl Hk) as (-> & s0 & p0 & Hin & ? & ?).
      split; [done|]. exists s0, p0. rewrite elem_of_app. eauto.
    + case_decide as Hd; [|done]. injection Hx as <-. destruct Hd as [Hne ->].
      split; [done|]. exists s, q. rewrite elem_of_app, list_elem_of_singleton. eauto.
Qed.

(** A measured path is an entry, and so is its directory name unless the
    path is the root. *)
Lemma build_measured_keys ms root s p :
  (s, p) ∈ ms ->
  is_Some ((build ms root).2 !! p)
  /\ (p <> root -> is_Some ((build ms root).2 !! dirname p)).
Proof.
  induction ms as [|[s' q] ms IH] using rev_ind; intros Hin.
  - by apply elem_of_nil in Hin.
  - rewrite build_snoc. apply elem_of_app in Hin as [Hin|Hin].
    + destruct (IH Hin) as [H1 H2].
      split; [|intros Hne]; apply ingest_dom_mono; auto.
    + apply list_elem_of_singleton in Hin. injection Hin as <- <-.
      destruct (build ms root) as [t ft].
      destruct (decide (p = root)) as [->|Hne].
      * split; [|done]. rewrite ingest_root. cbn [snd].
        by rewrite lookup_insert_eq.
      * rewrite !ingest_other_lookup by done.
        split; [|intros _]; repeat case_decide; try done; eauto.
Qed.

Lemma ingest_children_count root t ft s q p :
  p <> root ->
  children_count (ingest root (t, ft) (s, q)).2 p
  = (children_count ft p + if decide (q = p) then 1 else 0)%nat.
Proof.
  intros Hp. unfold children_count. destruct (decide (q = root)) as [->|Hq].
  - rewrite decide_False by done. rewrite ingest_root. cbn [snd].
    destruct (decide (root = dirname p)) as [<-|Hne].
    + rewrite lookup_insert_eq. destruct (ft !! root); simpl; lia.
    + rewrite lookup_insert_ne by done. destruct (ft !! dirname p); lia.
  - rewrite ingest_other_lookup by done.
    destruct (decide (dirname p = q)) as [Hdq|Hdq].
    + cbn [set_size children].
      destruct (decide (dirname q = q)) as [Hqq|Hqq]; rewrite Hdq.
      * cbn [append_child children]. rewrite filter_app, length_app, filter_cons, filter_nil.
        destruct (ft !! q); simpl; case_decide; simpl; lia.
      * cbn [id]. rewrite decide_False by (intros <-; congruence).
        destruct (ft !! q); simpl; lia.
    + destruct (decide (dirname p = dirname q)) as [Hdd|Hdd].
      * cbn [append_child children]. rewrite filter_app, length_app, filter_cons, filter_nil.
        rewrite Hdd. destruct (ft !! dirname q); simpl; case_decide; simpl; lia.
      * rewrite decide_False by (intros <-; congruence).
        destruct (ft !! dirname p); lia.
Qed.

(** A path other than the root stands in the list of its directory name once
    for each of its measurements. *)
Lemma build_children_count ms root p :
  p <> root ->
  children_count (build ms root).2 p = length (filter (fun q => q = p) ms.*2).
Proof.
  intros Hp. induction ms as [|[s q] ms IH] using rev_ind.
  - unfold children_count. cbn. by rewrite lookup_empty.
  - rewrite build_snoc, fmap_app, filter_app, length_app.
    destruct (build ms root) as [t ft]. cbn [snd] in IH.
    rewrite ingest_children_count, IH by done. simpl.
    rewrite filter_cons, filter_nil. case_decide; simpl; lia.
Qed.

(** ** The renderer *)

Lemma print_tree_unfold env fuel ft n path lg total depth :
  print_tree env (S fuel) ft n path lg total depth
  = if contracts_enabled env && (total <? 0)
    then Outcome [] (Raised (ContractNotRespected "total_size"))
    else
      match percentage (size n) total with
      | Raise e => Outcome [] (Raised e)
      | Ok pct =>
          if pct <? hide env then Outcome [] Returned
          else
            match print_size n with
            | None => Outcome [] (Raised (KeyError "print_size"))
            | Some ps =>
                let o :=
                  for_children ft
                    (fun child_node child =>
                       print_tree env fuel ft child_node child lg total (S depth))
                    (children n) in
                Outcome (Entry ps lg pct depth path :: output o) (status o)
            end
      end.
Proof. reflexivity. Qed.

Lemma for_children_output (P : printed -> Prop) ft call cs :
  (forall c n, c ∈ cs -> ft !! c = Some n -> Forall P (output (call n c))) ->
  Forall P (output (for_children ft call cs)).
Proof.
  induction cs as [|c cs IH]; intros H; simpl; [constructor|].
  destruct (ft !! c) as [n|] eqn:Hn; [|constructor].
  assert (Hc : Forall P (output (call n c))) by (apply H; [left|done]).
  destruct (status (call n c)); [|done..]. simpl.
  apply Forall_app. split; [done|]. apply IH. intros c' n' Hc'. apply H. by right.
Qed.

Lemma for_children_status ft call cs :
  (forall c n, c ∈ cs -> ft !! c = Some n -> status (call n c) <> OutOfFuel) ->
  status (for_children ft call cs) <> OutOfFuel.
Proof.
  induction cs as [|c cs IH]; intros H; simpl; [done|].
  destruct (ft !! c) as [n|] eqn:Hn; [|done].
  assert (Hc : status (call n c) <> OutOfFuel) by (apply H; [left|done]).
  destruct (status (call n c)) eqn:E; [|by rewrite E..]. simpl.
  apply IH. intros c' n' Hc'. apply H. by right.
Qed.

(** When the loop returns, every call returned, and the output is theirs in
    order. *)
Lemma for_children_returned ft call cs :
  status (for_children ft call cs) = Returned ->
  Forall (fun c => exists n, ft !! c = Some n /\ status (call n c) = Returned) cs
  /\ output (for_children ft call cs)
     = concat ((fun c => match ft !! c with
                         | Some n => output (call n c)
                         | None => []
                         end) <$> cs).
Proof.
  induction cs as [|c cs IH]; simpl; [by split|].
  destruct (ft !! c) as [n|] eqn:Hn; [|done].
  destruct (status (call n c)) eqn:E; [|by rewrite E..]. simpl.
  intros [IH1 IH2]%IH. split; [|by rewrite IH2].
  constructor; [|done]. eauto.
Qed.





Lemma print_tree_below env ft total fuel :
  forall n path lg depth,
    Forall (below depth) (output (print_tree env fuel ft n path lg total depth)).
Proof.
  induction fuel as [|fuel IH]; intros n path lg depth; [constructor|].
  rewrite print_tree_unfold.
  destruct (contracts_enabled env && (total <? 0)); [constructor|].
  destruct (percentage (size n) total) as [pct|]; [|constructor].
  destruct (pct <? hide env); [constructor|].
  destruct (print_size n) as [ps|]; [|constructor].
  simpl. constructor; [simpl; lia|].
  apply for_children_output. intros c n' _ _.
  eapply Forall_impl; [apply IH|]. intros [|] ; simpl; lia.
Qed.

Lemma filter_entry_at_below depth path l :
  Forall (below (S depth)) l -> filter (entry_at depth path) l = [].
Proof.
  induction 1 as [|p l Hp Hl IH]; [done|].
  rewrite filter_cons, IH. case_decide as H; [|done].
  destruct p; simpl in *; [done|]. lia.
Qed.

(** How many lines one call on the child [c] prints for [p] at its own
    depth: one if it is [p] and it is not hidden, none otherwise. *)
Lemma print_tree_count_self env ft total fuel nc c lg depth p :
  status (print_tree env fuel ft nc c lg total depth) = Returned ->
  length (filter (entry_at depth p)
            (output (print_tree env fuel ft nc c lg total depth)))
  = if decide (c = p) then
      match percentage (size nc) total with
      | Ok pct => if pct <? hide env then O else 1%nat
      | Raise _ => O
      end
    else O.
Proof.
  destruct fuel as [|fuel]; [done|]. rewrite print_tree_unfold.
  destruct (contracts_enabled env && (total <? 0)); [done|].
  destruct (percentage (size nc) total) as [pct|]; [|done].
  destruct (pct <? hide env); [by case_decide|].
  destruct (print_size nc) as [ps|]; [|done]. simpl. intros _.
  rewrite filter_cons, (filter_entry_at_below depth p).
  - destruct (decide (c = p)) as [->|Hne].
    + by rewrite decide_True.
    + rewrite decide_False; [done|]. by intros [_ ?].
  - apply for_children_output. intros c' n' _ _. apply print_tree_below.
Qed.

(** Each time a node is rendered, each occurrence of [p] among its children
    is rendered once, unless [p] is hidden. *)
Lemma print_tree_count_child env ft total fuel n path lg depth pct p np pctp :
  status (print_tree env (S fuel) ft n path lg total depth) = Returned ->
  percentage (size n) total = Ok pct -> hide env <= pct ->
  ft !! p = Some np -> percentage (size np) total = Ok pctp ->
  length (filter (entry_at (S depth) p)
            (output (print_tree env (S fuel) ft n path lg total depth)))
  = if pctp <? hide env then O
    else length (filter (fun c => c = p) (children n)).
Proof.
  rewrite print_tree_unfold. intros Hst Hpct Hle Hnp Hpctp.
  rewrite Hpct in Hst |- *.
  destruct (contracts_enabled env && (total <? 0)); [done|].
  rewrite (proj2 (Z.ltb_ge _ _) Hle) in Hst |- *.
  destruct (print_size n) as [ps|]; [|done]. cbn [output status] in Hst |- *.
  rewrite filter_cons, decide_False by (simpl; lia).
  apply for_children_returned in Hst as [Hall ->].
  induction Hall as [|c cs (nc & Hnc & Hc) Hall IH].
  - simpl. by destruct (pctp <? hide env).
  - rewrite fmap_cons, concat_cons, filter_app, length_app, IH, Hnc.
    rewrite print_tree_count_self by done. rewrite filter_cons.
    case_decide as Hcp.
    + subst c. simplify_eq. rewrite Hpctp.
      destruct (pctp <? hide env); simpl; lia.
    + destruct (pctp <? hide env); simpl; lia.
Qed.

(** ** Termination of the renderer *)

Lemma max_len_key ft k :
  is_Some (ft !! k) -> (String.length k <= max_len ft)%nat.
Proof.
  intros [n Hn]. apply max_list_elem_of_le, list_elem_of_fmap.
  exists k. split; [done|]. apply list_elem_of_fmap. exists (k, n).
  by rewrite elem_of_map_to_list.
Qed.

(** Below the root a child is never its own directory name, so it is longer
    than the entry it stands in. *)
Lemma linked_child_longer root ft k n c :
  linked root ft -> ft !! k = Some n -> c ∈ children n ->
  k = root \/ all_slashes k = false ->
  all_slashes c = false /\ (String.length k < String.length c)%nat.
Proof.
  intros Hl Hn Hc Hk. destruct (Hl k n c Hn Hc) as (Hne & Hd & _).
  assert (Hs : all_slashes c = false).
  { destruct (all_slashes c) eqn:E; [|done].
    apply dirname_all_slashes in E as Hfix. rewrite Hd in Hfix. subst k.
    destruct Hk; congruence. }
  split; [done|]. rewrite <- Hd. by apply dirname_shorter.
Qed.

Lemma print_tree_terminates env root ft lg total :
  linked root ft ->
  forall fuel n path depth,
    ft !! path = Some n ->
    path = root \/ all_slashes path = false ->
    (max_len ft < fuel + String.length path)%nat ->
    status (print_tree env fuel ft n path lg total depth) <> OutOfFuel.
Proof.
  intros Hl. induction fuel as [|fuel IH]; intros n path depth Hn Hp Hfuel.
  - pose proof (max_len_key ft path ltac:(eauto)). simpl in Hfuel. lia.
  - rewrite print_tree_unfold.
    destruct (contracts_enabled env && (total <? 0)); [done|].
    destruct (percentage (size n) total) as [pct|]; [|done].
    destruct (pct <? hide env); [done|].
    destruct (print_size n) as [ps|]; [|done]. cbn [status].
    apply for_children_status. intros c nc Hc Hnc.
    destruct (linked_child_longer root ft path n c Hl Hn Hc Hp) as [Hs Hlen].
    apply IH; [done|by right|lia].
Qed.

Lemma reachable_not_fixed root ft k :
  linked root ft -> reachable ft root k -> k = root \/ all_slashes k = false.
Proof.
  intros Hl. induction 1 as [|k n c _ IH Hn Hc]; [by left|]. right.
  by destruct (linked_child_longer root ft k n c Hl Hn Hc IH).
Qed.

Lemma sort_and_format_linked order root ft ft' lg :
  sort_and_format order ft = Ok (ft', lg) -> linked root ft -> linked root ft'.
Proof.
  intros H Hl k n' c Hn' Hc.
  destruct (sort_and_format_lookup _ _ _ _ _ _ H Hn') as (n & Hn & Hf).
  rewrite (formatted_children _ _ _ _ Hf) in Hc.
  destruct (Hl k n c Hn Hc) as (? & ? & [nc Hnc]). split; [done|]. split; [done|].
  destruct (proj1 (sort_and_format_spec _ _ _ _ H) c nc Hnc) as (nc' & -> & _).
  eauto.
Qed.

(** The pass fails only where [bytes_to_readable] does. *)
Lemma bytes_to_readable_raises blocks e :
  bytes_to_readable blocks = Raise e -> e = IndexError \/ e = OverflowError.
Proof.
  unfold bytes_to_readable.
  destruct (labels !! _); [done|].
  destruct (PyFloat.of_int _); [destruct (PyFloat.of_int _)|];
    intros [= <-]; auto.
Qed.

Lemma decorate_Raise ft l e :
  decorate ft l = Raise e -> exists c, c ∈ l /\ ft !! c = None.
Proof.
  induction l as [|v l IH]; simpl; [done|].
  destruct (ft !! v) eqn:Hv; [|intros _; exists v; split; [left|done]].
  destruct (decorate ft l); [done|]. intros [= <-].
  destruct IH as (c & Hc & Hn); [done|]. exists c. split; [by right|done].
Qed.

Lemma sort_entry_closed order cur k n cs ps :
  closed cur -> cur !! k = Some n ->
  sorted cur order (children n) = Ok cs ->
  closed (<[k := Node cs (size n) ps]> cur).
Proof.
  intros Hcl Hn Hcs. apply sorted_Ok in Hcs as (Hperm & _).
  intros k' n' c Hn' Hc.
  assert (Hc' : is_Some (cur !! c)).
  { destruct (decide (k = k')) as [<-|Hne].
    - rewrite lookup_insert_eq in Hn'. injection Hn' as <-.
      simpl in Hc. rewrite Hperm in Hc. eauto.
    - rewrite lookup_insert_ne in Hn' by done. eauto. }
  destruct (decide (k = c)) as [<-|].
  - by rewrite lookup_insert_eq.
  - by rewrite lookup_insert_ne.
Qed.

Lemma sorted_closed order cur k n :
  closed cur -> cur !! k = Some n ->
  exists cs, sorted cur order (children n) = Ok cs.
Proof.
  intros Hcl Hn. unfold sorted.
  destruct (decorate_closed cur (children n)) as [d ->]; eauto.
Qed.

Lemma sort_entries_raises order ks : forall cur lg e,
  (forall k, k ∈ ks -> is_Some (cur !! k)) -> closed cur ->
  sort_entries order ks (cur, lg) = Raise e ->
  e = IndexError \/ e = OverflowError.
Proof.
  induction ks as [|k ks IH]; intros cur lg e Hks Hcl; simpl; [done|].
  destruct (Hks k) as [n Hn]; [left|]. rewrite Hn.
  destruct (sorted_closed order cur k n Hcl Hn) as [cs Hcs]. rewrite Hcs.
  destruct (bytes_to_readable (size n)) as [ps|e'] eqn:Hps.
  - apply IH; [|by eapply sort_entry_closed].
    intros k' Hk'. destruct (decide (k = k')) as [<-|].
    + by rewrite lookup_insert_eq.
    + rewrite lookup_insert_ne by done. apply Hks. by right.
  - intros [= <-]. by eapply bytes_to_readable_raises.
Qed.

(** The pass completes when every child is an entry and every size can be
    formatted. *)
Lemma sort_entries_completes order ks : forall cur lg,
  (forall k, k ∈ ks -> is_Some (cur !! k)) -> closed cur ->
  (forall k n, cur !! k = Some n -> exists ps, bytes_to_readable (size n) = Ok ps) ->
  exists st, sort_entries order ks (cur, lg) = Ok st.
Proof.
  induction ks as [|k ks IH]; intros cur lg Hks Hcl Hfmt; simpl; [eauto|].
  destruct (Hks k) as [n Hn]; [left|]. rewrite Hn.
  destruct (sorted_closed order cur k n Hcl Hn) as [cs Hcs]. rewrite Hcs.
  destruct (Hfmt k n Hn) as [ps Hps]. rewrite Hps.
  apply IH; [|by eapply sort_entry_closed|].
  - intros k' Hk'. destruct (decide (k = k')) as [<-|].
    + by rewrite lookup_insert_eq.
    + rewrite lookup_insert_ne by done. apply Hks. by right.
  - intros k' n' Hn'. destruct (decide (k = k')) as [<-|].
    + rewrite lookup_insert_eq in Hn'. injection Hn' as <-. simpl. eauto.
    + rewrite lookup_insert_ne in Hn' by done. eauto.
Qed.

Lemma sort_and_format_completes order ft :
  closed ft ->
  (forall k n, ft !! k = Some n -> Z.of_N (size n) * 512 < 1024 ^ 5) ->
  exists ft' lg, sort_and_format order ft = Ok (ft', lg).
Proof.
  intros Hcl Hsz.
  destruct (sort_entries_completes order (map_to_list ft).*1 ft O)
    as [[ft' lg] H]; [| done | | by exists ft', lg].
  - intros k ([k' n] & -> & Hk%elem_of_map_to_list)%list_elem_of_fmap. eauto.
  - intros k n Hn.
    by destruct (bytes_to_readable_small (size n) (Hsz k n Hn)) as (_ & _ & ?).
Qed.

Lemma sort_and_format_raises order root ft e :
  linked root ft -> sort_and_format order ft = Raise e ->
  e = IndexError \/ e = OverflowError.
Proof.
  intros Hl. apply sort_entries_raises.
  - intros k ([k' n] & -> & Hk%elem_of_map_to_list)%list_elem_of_fmap. eauto.
  - intros k n c Hn Hc. by destruct (Hl k n c Hn Hc) as (_ & _ & ?).
Qed.

(** * The claims *)

(** Without a root measurement and with contract checking active the run
    ends in an exception before any percentage line, but in none that names
    the missing root measurement: formatting a size fails ([IndexError],
    [OverflowError]) before anything is printed, or the header is printed
    and then either the lookup of the root raises [KeyError] (no child of
    the root was measured) or the contract [total_size >= 0] of [print_tree]
    rejects the sentinel [-1]. *)
Lemma missing_root_raises (env : environment) (fuel : nat)
    (ms : list measurement) (root : string) (order : bool) :
  contracts_enabled env = true ->
  root ∉ ms.*2 ->
  let o := show_space_list_from env (S fuel) ms root order in
  (exists e, output o = [] /\ status o = Raised e
             /\ (e = IndexError \/ e = OverflowError))
  \/ (exists lg e, output o = [Header lg] /\ status o = Raised e
                   /\ (e = KeyError root \/ e = ContractNotRespected "total_size")).
Proof.
  intros Hc Hroot o. subst o. unfold show_space_list_from.
  pose proof (build_total_missing ms root Hroot) as Ht.
  pose proof (build_linked ms root) as Hl.
  destruct (build ms root) as [t ft]. cbn [fst snd] in *. subst t.
  destruct (sort_and_format order ft) as [[ft' lg]|e] eqn:Hs.
  - right. destruct (ft' !! root) as [n|].
    + rewrite print_tree_unfold, Hc. simpl. eauto 10.
    + simpl. eauto 10.
  - left. exists e. split; [done|]. split; [done|].
    by eapply sort_and_format_raises.
Qed.

(** C1, the code at the failing input: only ["/r/a"] is measured and the
    root is ["/r"]. Nothing checks that the root was measured: [total_size]
    keeps the sentinel [-1] of line 138 and is handed to [print_tree] (lines
    191-192) against the contract [total_size: int, >=0] of that function
    (lines 88-89). With contract checking on, the header is printed and that
    contract stops the run; with checking off, the placeholder made for the
    root is printed at 0 percent of the sentinel and the run returns. *)
Theorem missing_root_sentinel :
  ("/r" ∉ only_a.*2)
  /\ (build only_a "/r").1 = -1
  /\ show_space_list_from (Env 0 false true) 2 only_a "/r" true
     = Outcome [Header 7] (Raised (ContractNotRespected "total_size"))
  /\ show_space_list_from (Env 0 false false) 2 only_a "/r" true
     = Outcome [Header 7; Entry "0.00B" 7 0 0 "/r"] Returned.
Proof.
  split; [intros [=]%list_elem_of_singleton|].
  split; [|split]; vm_compute; reflexivity.
Qed.




(** C3. When the root is measured, with whatever measurements before and
    after it, the root entry has the size of its (last) measurement, which
    is also [total_size]; and the root stands in no list of children. *)
Theorem build_root_size (pre post : list measurement) (s : N) (root : string) :
  root ∉ post.*2 ->
  let '(total_size, file_tree) := build (pre ++ (s, root) :: post) root in
  total_size = Z.of_N s
  /\ (exists n, file_tree !! root = Some n /\ size n = s)
  /\ forall k n, file_tree !! k = Some n -> root ∉ children n.
Proof.
  intros Hpost.
  pose proof (build_total_measured pre s post root Hpost) as Ht.
  pose proof (build_measured_size pre s root post root Hpost) as Hs.
  pose proof (build_linked (pre ++ (s, root) :: post) root) as Hl.
  destruct (build (pre ++ (s, root) :: post) root) as [t ft]. cbn [fst snd] in *.
  split; [done|]. split.
  - unfold child_size in Hs. destruct (ft !! root) as [n|]; [|done].
    injection Hs as Hs. eauto.
  - intros k n Hn Hin. by destruct (Hl k n root Hn Hin) as (? & _).
Qed.

Lemma build_root_size_witness :
  ("/r" ∉ [(100%N, "/r/b")].*2)
  /\ (build ([(100%N, "/r/a")] ++ (200%N, "/r") :: [(100%N, "/r/b")]) "/r").1
     = 200.
Proof.
  assert (H : "/r" ∉ [(100%N, "/r/b")].*2).
  { intros [=]%list_elem_of_singleton. }
  split; [exact H|].
  pose proof (build_root_size [(100%N, "/r/a")] [(100%N, "/r/b")] 200 "/r" H) as Hb.
  destruct (build ([(100%N, "/r/a")] ++ (200%N, "/r") :: [(100%N, "/r/b")]) "/r").
  exact (proj1 Hb).
Defined.

(** C4. The pass keeps the entries and their sizes, and for every entry of
    the tree the children after the pass are a rearrangement of what they
    were, their sizes never step against the requested order
    (non-increasing for [order = true], the descending default,
    non-decreasing otherwise), and the children of any one size stand in
    the order in which they stood before. The pass completes on every tree
    whose children are entries and whose sizes are below [1024^5] bytes. *)
Theorem sort_and_format_sorted (order : bool) (ft : gmap string node) :
  (forall ft' lg,
     sort_and_format order ft = Ok (ft', lg) ->
     (forall k, is_Some (ft' !! k) <-> is_Some (ft !! k))
     /\ (forall v, child_size ft' v = child_size ft v)
     /\ forall k n, ft !! k = Some n ->
          exists n', ft' !! k = Some n'
            /\ children n' ≡ₚ children n
            /\ (forall (i j : nat) a b,
                  (i < j)%nat ->
                  children n' !! i = Some a -> children n' !! j = Some b ->
                  exists sa sb,
                    child_size ft' a = Some sa /\ child_size ft' b = Some sb
                    /\ if order then (sb <= sa)%N else (sa <= sb)%N)
            /\ forall s, of_size ft' s (children n') = of_size ft' s (children n))
  /\ (closed ft ->
      (forall k n, ft !! k = Some n -> Z.of_N (size n) * 512 < 1024 ^ 5) ->
      exists ft' lg, sort_and_format order ft = Ok (ft', lg)).
Proof.
  split; [|apply sort_and_format_completes].
  intros ft' lg H.
  destruct (sort_and_format_spec _ _ _ _ H) as [Hin Hout].
  assert (Hsz : forall v, child_size ft' v = child_size ft v)
    by (intros v; by eapply sort_and_format_child_size).
  split; [|split; [done|]].
  - intros k. split.
    + intros [n' Hn']. destruct (ft !! k) as [n|] eqn:Hn; [by eexists|].
      by rewrite (Hout k Hn) in Hn'.
    + intros [n Hn]. destruct (Hin k n Hn) as (n' & Hn' & _). by eexists.
  - intros k n Hn. destruct (Hin k n Hn) as (n' & Hn' & Hs & _).
    exists n'. split; [done|].
    apply sorted_Ok in Hs as (Hperm & Hord & Hstable). split; [done|]. split.
    + intros i j a b Hij Ha Hb.
      destruct (Hord i j a b Hij Ha Hb) as (sa & sb & Hsa & Hsb & Hio).
      exists sa, sb. rewrite !Hsz. split; [done|]. split; [done|].
      unfold in_order in Hio. destruct order; by apply N.leb_le.
    + intros s. rewrite !(of_size_ext ft' ft) by done. apply Hstable.
Qed.

Lemma sort_and_format_sorted_witness :
  sort_and_format true (build four_children "/r").2 = Ok (four_sorted, 6%nat)
  /\ of_size four_sorted 5 ["/r/d"; "/r/b"; "/r/a"; "/r/c"] = ["/r/a"; "/r/c"]
  /\ exists n', four_sorted !! "/r" = Some n'
       /\ children n' ≡ₚ ["/r/a"; "/r/b"; "/r/c"; "/r/d"].
Proof.
  assert (H : sort_and_format true (build four_children "/r").2
              = Ok (four_sorted, 6%nat)) by (vm_compute; reflexivity).
  split; [exact H|]. split; [vm_compute; reflexivity|].
  destruct (proj1 (sort_and_format_sorted true _) _ _ H) as (_ & _ & Hall).
  destruct (Hall "/r" (Node ["/r/a"; "/r/b"; "/r/c"; "/r/d"] 9 None))
    as (n' & Hn' & Hperm & _); [vm_compute; reflexivity|].
  exists n'. split; [exact Hn'|exact Hperm].
Defined.

(** C5 (as amended). Every measured path other than the root is an entry and
    so is its directory name; an entry whose own path was never measured is
    a placeholder of size 0 for the directory name of a measured path; and an
    entry whose path was measured has the size of its last measurement. *)
Theorem build_parent_entries (ms : list measurement) (root : string) :
  let ft := (build ms root).2 in
  (forall s p, (s, p) ∈ ms -> p <> root ->
     is_Some (ft !! p) /\ is_Some (ft !! dirname p))
  /\ (forall k n, ft !! k = Some n -> k ∉ ms.*2 ->
        size n = 0%N /\ exists s p, (s, p) ∈ ms /\ p <> root /\ k = dirname p)
  /\ (forall (pre post : list measurement) s p,
        ms = (pre ++ (s, p) :: post)%list -> p ∉ post.*2 ->
        exists n, ft !! p = Some n /\ size n = s).
Proof.
  intros ft. subst ft. split; [|split].
  - intros s p Hin Hne. destruct (build_measured_keys ms root s p Hin). auto.
  - intros k n Hn Hk. apply (build_placeholder ms root k (size n)); [|done].
    unfold child_size. by rewrite Hn.
  - intros pre post s p -> Hp.
    pose proof (build_measured_size pre s p post root Hp) as Hs.
    unfold child_size in Hs.
    destruct ((build (pre ++ (s, p) :: post) root).2 !! p) as [n|]; [|done].
    injection Hs as Hs. eauto.
Qed.

Lemma build_parent_entries_witness :
  (5%N, "/r/a/b") ∈ only_b
  /\ "/r/a/b" <> "/r"
  /\ is_Some ((build only_b "/r").2 !! "/r/a/b")
  /\ is_Some ((build only_b "/r").2 !! dirname "/r/a/b").
Proof.
  assert (Hin : (5%N, "/r/a/b") ∈ only_b) by (by apply list_elem_of_singleton).
  assert (Hne : "/r/a/b" <> "/r") by discriminate.
  split; [exact Hin|]. split; [exact Hne|].
  exact (proj1 (build_parent_entries only_b "/r") 5%N "/r/a/b" Hin Hne).
Defined.

(** C5, the claim as written fails: after the single measurement of
    ["/r/a/b"] the placeholder ["/r/a"] is an entry other than the root ["/r"],
    and its directory name ["/r"] is not. *)
Lemma build_placeholder_without_parent :
  let ft := (build only_b "/r").2 in
  ~ (forall k, is_Some (ft !! k) -> k <> "/r" -> is_Some (ft !! dirname k)).
Proof.
  intros ft H. destruct (H "/r/a") as [n Hn].
  - vm_compute. eauto.
  - discriminate.
  - vm_compute in Hn. discriminate.
Qed.

(** C8. On [(200, "/r"), (100, "/r/a"), (100, "/r/b")] with root ["/r"] the
    total is 200 and, in descending order with threshold 0, exactly three
    entries are printed after the header: ["/r"] at 100 percent, then
    ["/r/a"] and ["/r/b"] at 50 percent each, in the order of insertion. *)
Theorem end_to_end_r_a_b :
  (build r_a_b "/r").1 = 200
  /\ (forall contracts view,
        show_space_list_from (Env 0 view contracts) 2 r_a_b "/r" true
        = Outcome [Header 8;
                   Entry "100.00Kb" 8 100 0 "/r";
                   Entry "50.00Kb" 8 50 1 "/r/a";
                   Entry "50.00Kb" 8 50 1 "/r/b"] Returned)
  /\ printed_text (Env 0 false true)
       <$> output (show_space_list_from (Env 0 false true) 2 r_a_b "/r" true)
     = ["    Size   (%)  File";
        "100.00Kb  100%  /r";
        " 50.00Kb   50%  /r/a";
        " 50.00Kb   50%  /r/b"].
Proof.
  split; [vm_compute; reflexivity|]. split; [|vm_compute; reflexivity].
  intros [] []; vm_compute; reflexivity.
Qed.

(** C9 (as amended). A path other than the root that is measured [k] times
    stands [k] times in the list of its directory name and has the size of
    its last measurement; and each time its parent is rendered and returns,
    [k] lines are printed for it one level below, or none if its own
    percentage is under the threshold. *)
Theorem build_repeated_measurement (ms : list measurement) (root p : string) :
  p <> root ->
  let ft := (build ms root).2 in
  let k := length (filter (fun q => q = p) ms.*2) in
  children_count ft p = k
  /\ (forall (pre post : list measurement) s,
        ms = (pre ++ (s, p) :: post)%list -> p ∉ post.*2 ->
        child_size ft p = Some s)
  /\ forall env order ft' lg lg' fuel parent np total depth pct pctp,
       sort_and_format order ft = Ok (ft', lg) ->
       ft' !! dirname p = Some parent -> ft' !! p = Some np ->
       percentage (size parent) total = Ok pct -> hide env <= pct ->
       percentage (size np) total = Ok pctp ->
       let o := print_tree env (S fuel) ft' parent (dirname p) lg' total depth in
       status o = Returned ->
       length (filter (entry_at (S depth) p) (output o))
       = if pctp <? hide env then O else k.
Proof.
  intros Hp ft k.
  pose proof (build_children_count ms root p Hp) as Hcount. fold ft k in Hcount.
  split; [done|]. split.
  - intros pre post s -> Hpost. by apply build_measured_size.
  - intros env order ft' lg lg' fuel parent np total depth pct pctp
      Hs Hparent Hnp Hpct Hle Hpctp o Hst. subst o.
    rewrite (print_tree_count_child env ft' total fuel parent (dirname p) lg'
               depth pct p np pctp) by done.
    destruct (pctp <? hide env); [done|].
    destruct (sort_and_format_lookup _ _ _ _ _ _ Hs Hparent) as (n & Hn & Hf).
    rewrite (formatted_children _ _ _ _ Hf).
    unfold children_count in Hcount. by rewrite Hn in Hcount.
Qed.

Lemma build_repeated_measurement_witness :
  "/r/a" <> "/r"
  /\ children_count (build twice "/r").2 "/r/a" = 2%nat
  /\ child_size (build twice "/r").2 "/r/a" = Some 5%N.
Proof.
  assert (H : "/r/a" <> "/r") by discriminate. split; [exact H|].
  destruct (build_repeated_measurement twice "/r" "/r/a" H) as (Hc & Hs & _).
  split; [exact Hc|].
  apply (Hs [(9%N, "/r"); (5%N, "/r/a")] [(1%N, "/r/a/b"); (1%N, "/r/a/b")] 5%N);
    [reflexivity|].
  cbn. by intros [[=]|[[=]|[]%elem_of_nil]%elem_of_cons]%elem_of_cons.
Defined.

(** C9, the claim as written fails: ["/r/a/b"] is measured twice, and so is
    its parent ["/r/a"]; the parent is rendered twice and ["/r/a/b"] twice
    each time, four times in all. *)
Lemma build_repeated_rendered_four_times :
  length (filter (fun q => q = "/r/a/b") twice.*2) = 2%nat
  /\ status (show_space_list_from (Env 0 false true) 3 twice "/r" true) = Returned
  /\ length (filter (entry_at 2 "/r/a/b")
       (output (show_space_list_from (Env 0 false true) 3 twice "/r" true)))
     = 4%nat.
Proof. split; [|split]; vm_compute; reflexivity. Qed.

(** C10. In the tree handed to [print_tree], every child of an entry that
    can be reached from the root is strictly longer than that entry, and the
    run of [show_space_list] ends (by returning or by an exception) at every
    recursion depth from some depth on. *)
Theorem print_tree_from_root_terminates (env : environment)
    (ms : list measurement) (root : string) (order : bool) :
  (forall ft' lg k n c,
     sort_and_format order (build ms root).2 = Ok (ft', lg) ->
     reachable ft' root k -> ft' !! k = Some n -> c ∈ children n ->
     (String.length k < String.length c)%nat)
  /\ exists fuel0, forall fuel, (fuel0 <= fuel)%nat ->
       status (show_space_list_from env fuel ms root order) <> OutOfFuel.
Proof.
  pose proof (build_linked ms root) as Hl. split.
  - intros ft' lg k n c Hs Hk Hn Hc.
    pose proof (sort_and_format_linked _ _ _ _ _ Hs Hl) as Hl'.
    eapply linked_child_longer; [done..|]. by eapply reachable_not_fixed.
  - unfold show_space_list_from. destruct (build ms root) as [t ft].
    cbn [snd] in Hl.
    destruct (sort_and_format order ft) as [[ft' lg]|e] eqn:Hs; [|by exists O].
    pose proof (sort_and_format_linked _ _ _ _ _ Hs Hl) as Hl'.
    destruct (ft' !! root) as [n|] eqn:Hn; [|by exists O].
    exists (S (max_len ft')). intros fuel Hfuel. cbn [status].
    eapply print_tree_terminates; [done|done|by left|lia].
Qed.

Lemma print_tree_from_root_terminates_witness :
  (String.length "/r" < String.length "/r/a")%nat
  /\ status (show_space_list_from (Env 0 false true) 2 r_a_b "/r" true) = Returned.
Proof.
  split; [|vm_compute; reflexivity].
  destruct (print_tree_from_root_terminates (Env 0 false true) r_a_b "/r" true)
    as [Hlonger _].
  destruct (sort_and_format true (build r_a_b "/r").2) as [[ft' lg]|e] eqn:Hs;
    [|vm_compute in Hs; discriminate].
  apply (Hlonger ft' lg "/r" (Node ["/r/a"; "/r/b"] 200 (Some "100.00Kb")) "/r/a" eq_refl).
  - constructor.
  - vm_compute in Hs. injection Hs as <- _. vm_compute. reflexivity.
  - left.
Defined.

(** * Further properties of the code *)

(** ** The size formatter *)

(** The number of divisions is fixed by the magnitude of the byte count. *)
Lemma division_count_unique byts (k : nat) :
  0 <= byts -> byts < 1024 * 1024 ^ Z.of_nat k ->
  ((0 < k)%nat -> 1024 ^ Z.of_nat k <= byts) ->
  division_count byts = k.
Proof.
  intros H Hup Hlow.
  destruct (divide_loop_total byts H) as (_ & _ & Hbig).
  pose proof (division_count_upper byts H) as Hup'.
  set (c := division_count byts) in *.
  destruct (Nat.lt_trichotomy c k) as [Hlt|[Heq|Hgt]]; [|done|].
  - assert (1024 * 1024 ^ Z.of_nat c <= 1024 ^ Z.of_nat k).
    { rewrite <- Z.pow_succ_r by lia. apply Z.pow_le_mono_r; lia. }
    specialize (Hlow ltac:(lia)). lia.
  - assert (1024 * 1024 ^ Z.of_nat k <= 1024 ^ Z.of_nat c).
    { rewrite <- Z.pow_succ_r by lia. apply Z.pow_le_mono_r; lia. }
    specialize (Hbig ltac:(lia)). lia.
Qed.

(** X1. A byte count between [1024^k] and [1024^(k+1)] (from 0 for [k = 0])
    is printed with the [k]-th unit, and the number in front of the unit is
    the quotient by [1024^k] rounded to the nearest hundredth. *)
Theorem bytes_to_readable_unit (blocks : N) (k : nat) (label : string) :
  labels !! k = Some label ->
  Z.of_N blocks * 512 < 1024 * 1024 ^ Z.of_nat k ->
  ((0 < k)%nat -> 1024 ^ Z.of_nat k <= Z.of_N blocks * 512) ->
  exists h,
    bytes_to_readable blocks = Ok (fixed2 h ++ label)%string
    /\ 2 * Z.abs (100 * (Z.of_N blocks * 512) - h * 1024 ^ Z.of_nat k)
       <= 1024 ^ Z.of_nat k.
Proof.
  intros Hl Hup Hlow. set (byts := Z.of_N blocks * 512) in *.
  assert (H : 0 <= byts) by (unfold byts; lia).
  assert (Hc : division_count byts = k) by (by apply division_count_unique).
  exists (hundredths byts k). split.
  - unfold bytes_to_readable. fold byts. by rewrite Hc, Hl.
  - unfold hundredths.
    assert (Hpos : 0 < 1024 ^ Z.of_nat k) by (apply Z.pow_pos_nonneg; lia).
    set (P := 1024 ^ Z.of_nat k) in *.
    pose proof (Z.div_mod (200 * byts + P) (2 * P) ltac:(lia)) as Hdm.
    pose proof (Z.mod_pos_bound (200 * byts + P) (2 * P) ltac:(lia)) as Hmod.
    lia.
Qed.

Lemma bytes_to_readable_unit_witness :
  exists h,
    bytes_to_readable 3 = Ok (fixed2 h ++ "Kb")%string
    /\ 2 * Z.abs (100 * (Z.of_N 3 * 512) - h * 1024 ^ Z.of_nat 1)
       <= 1024 ^ Z.of_nat 1.
Proof.
  apply (bytes_to_readable_unit 3 1 "Kb"); [reflexivity|reflexivity|].
  intros _. vm_compute. discriminate.
Defined.

(** X2. [bytes_to_readable] returns a string exactly for the block counts
    below 2^41 (byte counts below [1024^5]); from there on it raises
    [IndexError] or, beyond the doubles, [OverflowError]. *)
Theorem bytes_to_readable_returns_iff (blocks : N) :
  ((exists s, bytes_to_readable blocks = Ok s) <-> (blocks < 2 ^ 41)%N)
  /\ ((2 ^ 41 <= blocks)%N ->
      bytes_to_readable blocks = Raise IndexError
      \/ bytes_to_readable blocks = Raise OverflowError).
Proof.
  assert (Hfail : (2 ^ 41 <= blocks)%N ->
    bytes_to_readable blocks = Raise IndexError
    \/ bytes_to_readable blocks = Raise OverflowError).
  { intros Hge. set (byts := Z.of_N blocks * 512).
    assert (H : 0 <= byts) by (unfold byts; lia).
    assert (Hbig : 1024 ^ 5 <= byts).
    { unfold byts. change (1024 ^ 5) with (Z.of_N (2 ^ 41) * 512). lia. }
    pose proof (division_count_upper byts H) as Hup.
    assert (Hc : (5 <= division_count byts)%nat).
    { destruct (le_lt_dec 5 (division_count byts)) as [|Hlt]; [done|].
      assert (1024 * 1024 ^ Z.of_nat (division_count byts) <= 1024 ^ 5).
      { rewrite <- Z.pow_succ_r by lia. apply Z.pow_le_mono_r; lia. }
      lia. }
    unfold bytes_to_readable. fold byts.
    rewrite (lookup_ge_None_2 labels) by (simpl; lia).
    destruct (PyFloat.of_int _); [destruct (PyFloat.of_int _)|]; auto. }
  split; [|done]. split.
  - intros [s Hs]. destruct (N.lt_ge_cases blocks (2 ^ 41)) as [|Hge]; [done|].
    destruct (Hfail Hge) as [Hf|Hf]; rewrite Hf in Hs; done.
  - intros Hlt. apply bytes_to_readable_small.
    change (1024 ^ 5) with (Z.of_N (2 ^ 41) * 512). lia.
Qed.

Lemma bytes_to_readable_returns_iff_witness :
  (2 ^ 41 <= 2 ^ 42)%N /\ bytes_to_readable (2 ^ 42) = Raise IndexError.
Proof.
  assert (H : (2 ^ 41 <= 2 ^ 42)%N) by (vm_compute; discriminate).
  split; [exact H|].
  destruct (proj2 (bytes_to_readable_returns_iff (2 ^ 42)) H) as [Hi|Ho];
    [exact Hi|]. vm_compute in Ho. discriminate.
Defined.

(** ** The formatting pass and the width of the size column *)

Lemma sort_entries_largest order ft ks : forall cur lg ft' lg',
  (forall v, child_size cur v = child_size ft v) ->
  sort_entries order ks (cur, lg) = Ok (ft', lg') ->
  (lg <= lg')%nat
  /\ (forall k n ps, k ∈ ks -> ft !! k = Some n ->
        bytes_to_readable (size n) = Ok ps -> (String.length ps <= lg')%nat)
  /\ (lg' = lg
      \/ exists k n ps, k ∈ ks /\ ft !! k = Some n
           /\ bytes_to_readable (size n) = Ok ps /\ String.length ps = lg').
Proof.
  induction ks as [|k ks IH]; intros cur lg ft' lg' Hsz; simpl.
  - intros [= <- <-]. split; [done|]. split; [|by left].
    intros k n ps Hk. by apply elem_of_nil in Hk.
  - destruct (cur !! k) as [n|] eqn:Hn; [|done].
    destruct (sorted cur order (children n)) as [cs|]; [|done].
    destruct (bytes_to_readable (size n)) as [ps|] eqn:Hps; [|done].
    intros Hrest.
    assert (Hk : child_size ft k = Some (size n)).
    { rewrite <- Hsz. unfold child_size. by rewrite Hn. }
    apply IH in Hrest as (Hle & Hall & Hmax).
    + split; [lia|]. split.
      * intros k' n' ps' [->|Hk']%elem_of_cons Hn' Hps'; [|by eapply Hall].
        unfold child_size in Hk. rewrite Hn' in Hk. injection Hk as Hk.
        rewrite Hk, Hps in Hps'. injection Hps' as <-. lia.
      * destruct Hmax as [->|(k' & n' & ps' & Hk' & ? & ? & ?)].
        -- destruct (Nat.max_spec lg (String.length ps)) as [[_ ->]|[_ ->]];
             [|by left].
           right. unfold child_size in Hk.
           destruct (ft !! k) as [n0|] eqn:Hn0; [|done]. injection Hk as Hk.
           exists k, n0, ps. rewrite Hk. split; [left|done].
        -- right. exists k', n', ps'. split; [by right|done].
    + intros v. unfold child_size. destruct (decide (k = v)) as [<-|Hne].
      * rewrite lookup_insert_eq. simpl. by rewrite <- Hk.
      * rewrite lookup_insert_ne by done. apply Hsz.
Qed.

Lemma repeat_string_length s n :
  String.length (repeat_string s n) = (n * String.length s)%nat.
Proof.
  assert (Happ : forall a b,
    String.length (a ++ b) = (String.length a + String.length b)%nat).
  { intros a b. induction a as [|c a IH]; simpl; [done|]. by rewrite IH. }
  induction n as [|n IH]; simpl; [done|]. by rewrite Happ, IH.
Qed.

Lemma rjust_length width s :
  String.length (rjust width s) = Nat.max width (String.length s).
Proof.
  assert (Happ : forall a b,
    String.length (a ++ b) = (String.length a + String.length b)%nat).
  { intros a b. induction a as [|c a IH]; simpl; [done|]. by rewrite IH. }
  unfold rjust. rewrite Happ, repeat_string_length. simpl. lia.
Qed.

(** X3. After the pass every entry keeps its size and carries the string
    that [bytes_to_readable] makes of it; [largest_size] is the length of
    the longest of these strings (0 for the empty tree), so that every
    right-justified size fills the column exactly. *)
Theorem sort_and_format_column (order : bool) (ft ft' : gmap string node)
    (lg : nat) :
  sort_and_format order ft = Ok (ft', lg) ->
  (forall k n', ft' !! k = Some n' ->
     exists n ps, ft !! k = Some n /\ size n' = size n
       /\ bytes_to_readable (size n) = Ok ps /\ print_size n' = Some ps
       /\ (String.length ps <= lg)%nat
       /\ String.length (rjust lg ps) = lg)
  /\ (forall k, ft' !! k = None <-> ft !! k = None)
  /\ (lg = O
      \/ exists k n' ps, ft' !! k = Some n' /\ print_size n' = Some ps
           /\ String.length ps = lg).
Proof.
  intros H. pose proof H as Hlg.
  apply sort_entries_largest with (ft := ft) in Hlg as (_ & Hall & Hmax); [|done].
  destruct (sort_and_format_spec _ _ _ _ H) as [Hin Hout].
  assert (Hkeys : forall k n, ft !! k = Some n -> k ∈ (map_to_list ft).*1).
  { intros k n Hn. apply list_elem_of_fmap. exists (k, n).
    by rewrite elem_of_map_to_list. }
  split; [|split].
  - intros k n' Hn'.
    destruct (sort_and_format_lookup _ _ _ _ _ _ H Hn')
      as (n & Hn & _ & Hs & ps & Hps & Hp).
    exists n, ps. repeat (split; [done|]).
    assert (Hle : (String.length ps <= lg)%nat) by (eapply Hall; eauto).
    split; [done|]. rewrite rjust_length. lia.
  - intros k. split; [|apply Hout]. intros Hk.
    destruct (ft !! k) as [n|] eqn:Hn; [|done].
    destruct (Hin k n Hn) as (n' & Hn' & _). congruence.
  - destruct Hmax as [->|(k & n & ps & _ & Hn & Hps & Hlen)]; [by left|]. right.
    destruct (Hin k n Hn) as (n' & Hn' & _ & _ & ps' & Hps' & Hp).
    exists k, n', ps. split; [done|]. split; [congruence|done].
Qed.

Lemma sort_and_format_column_witness :
  sort_and_format true (build four_children "/r").2 = Ok (four_sorted, 6%nat)
  /\ exists k n' ps, four_sorted !! k = Some n' /\ print_size n' = Some ps
       /\ String.length ps = 6%nat.
Proof.
  assert (H : sort_and_format true (build four_children "/r").2
              = Ok (four_sorted, 6%nat)) by (vm_compute; reflexivity).
  split; [exact H|].
  destruct (sort_and_format_column true _ _ _ H) as (_ & _ & [Hz|Hmax]);
    [discriminate Hz|exact Hmax].
Defined.

(** ** Whole runs *)

(** Every size in the tree is a measured size or the 0 of a placeholder. *)
Lemma build_sizes ms root k x :
  child_size (build ms root).2 k = Some x ->
  x = 0%N \/ exists p, (x, p) ∈ ms.
Proof.
  revert x. induction ms as [|[s q] ms IH] using rev_ind; intros x Hx.
  - cbn in Hx. unfold child_size in Hx. by rewrite lookup_empty in Hx.
  - rewrite build_snoc in Hx. destruct (build ms root) as [t ft].
    rewrite ingest_child_size in Hx. cbn [snd] in IH.
    assert (Hold : forall y, child_size ft k = Some y ->
      y = 0%N \/ exists p, (y, p) ∈ (ms ++ [(s, q)])%list).
    { intros y Hy. destruct (IH y Hy) as [->|[p Hp]]; [by left|right].
      exists p. apply elem_of_app. by left. }
    case_decide.
    + injection Hx as <-. right. exists q. apply elem_of_app. right. left.
    + destruct (child_size ft k) as [y|]; [injection Hx as <-; by apply Hold|].
      case_decide; [|done]. injection Hx as <-. by left.
Qed.

Lemma linked_closed root ft : linked root ft -> closed ft.
Proof. intros Hl k n c Hn Hc. by destruct (Hl k n c Hn Hc) as (_ & _ & ?). Qed.

(** The pass completes on the tree of measurements below 2^41 blocks. *)
Lemma build_formats order ms root :
  (forall s p, (s, p) ∈ ms -> (s < 2 ^ 41)%N) ->
  exists ft' lg, sort_and_format order (build ms root).2 = Ok (ft', lg).
Proof.
  intros Hsz. apply sort_and_format_completes.
  - eapply linked_closed, build_linked.
  - intros k n Hn. change (1024 ^ 5) with (Z.of_N (2 ^ 41) * 512).
    destruct (build_sizes ms root k (size n)) as [->|[p Hp]].
    + unfold child_size. by rewrite Hn.
    + done.
    + specialize (Hsz _ _ Hp). lia.
Qed.

(** X4. When every measured size is below 2^41 blocks, a root measured
    (last) with size 0 stops the run after the header: line 96 divides by
    [float(0)] and [ZeroDivisionError] is raised. *)
Theorem root_of_size_zero (env : environment) (fuel : nat)
    (pre post : list measurement) (root : string) (order : bool) :
  root ∉ post.*2 ->
  (forall s p, (s, p) ∈ (pre ++ (0%N, root) :: post)%list -> (s < 2 ^ 41)%N) ->
  exists lg,
    show_space_list_from env (S fuel) (pre ++ (0%N, root) :: post) root order
    = Outcome [Header lg] (Raised ZeroDivisionError).
Proof.
  intros Hpost Hsz. unfold show_space_list_from.
  pose proof (build_total_measured pre 0 post root Hpost) as Ht.
  pose proof (build_measured_size pre 0 root post root Hpost) as Hs.
  destruct (build_formats order _ root Hsz) as (ft' & lg & Hf).
  destruct (build (pre ++ (0%N, root) :: post) root) as [t ft].
  cbn [fst snd] in *. subst t. rewrite Hf.
  rewrite <- (sort_and_format_child_size _ _ _ _ root Hf) in Hs.
  unfold child_size in Hs. destruct (ft' !! root) as [n|]; [|done].
  injection Hs as Hs. exists lg. rewrite print_tree_unfold, Hs.
  change (Z.of_N 0 <? 0) with false. rewrite andb_false_r. reflexivity.
Qed.

Lemma root_of_size_zero_witness :
  show_space_list_from (Env 0 false true) 1 ([] ++ (0%N, "/r") :: []) "/r" true
  = Outcome [Header 5] (Raised ZeroDivisionError).
Proof.
  destruct (root_of_size_zero (Env 0 false true) 0 [] [] "/r" true) as [lg Hlg].
  - intros Hin. by apply elem_of_nil in Hin.
  - intros s p [[= -> ->]|Hin%elem_of_nil]%elem_of_cons; [reflexivity|done].
  - rewrite Hlg. vm_compute in Hlg. injection Hlg as <-. reflexivity.
Defined.

(** X5. When every measured size is below 2^41 blocks and neither the root
    nor a path directly under it is measured (the empty list of measurements
    included), the root is no entry of the tree: the header is printed and
    [file_tree[abs_directory]] raises [KeyError], whatever the contract
    switch. *)
Theorem root_without_entry (env : environment) (fuel : nat)
    (ms : list measurement) (root : string) (order : bool) :
  root ∉ ms.*2 ->
  (forall s p, (s, p) ∈ ms -> dirname p <> root /\ (s < 2 ^ 41)%N) ->
  exists lg,
    show_space_list_from env fuel ms root order
    = Outcome [Header lg] (Raised (KeyError root)).
Proof.
  intros Hroot Hms. unfold show_space_list_from.
  destruct (build_formats order ms root) as (ft' & lg & Hf);
    [intros s p Hin; by destruct (Hms s p Hin)|].
  assert (Hnone : (build ms root).2 !! root = None).
  { destruct ((build ms root).2 !! root) as [n|] eqn:Hn; [|done].
    destruct (build_placeholder ms root root (size n)) as (_ & s & p & Hin & _ & Hd);
      [unfold child_size; by rewrite Hn|done|].
    by destruct (Hms s p Hin). }
  destruct (build ms root) as [t ft]. cbn [snd] in *. rewrite Hf.
  rewrite (proj2 (sort_and_format_spec _ _ _ _ Hf) root Hnone). eauto.
Qed.

Lemma root_without_entry_witness :
  show_space_list_from (Env 0 false true) 0 only_b "/r" true
  = Outcome [Header 6] (Raised (KeyError "/r")).
Proof.
  destruct (root_without_entry (Env 0 false true) 0 only_b "/r" true)
    as [lg Hlg].
  - intros [=]%list_elem_of_singleton.
  - intros s p [= -> ->]%list_elem_of_singleton. split; [discriminate|reflexivity].
  - rewrite Hlg. vm_compute in Hlg. injection Hlg as <-. reflexivity.
Defined.

(** A child was measured. *)
Lemma build_children_measured ms root k n c :
  (build ms root).2 !! k = Some n -> c ∈ children n -> c ∈ ms.*2.
Proof.
  intros Hn Hc. destruct (build_linked ms root k n c Hn Hc) as (Hne & Hd & _).
  pose proof (build_children_count ms root c Hne) as Hcount.
  unfold children_count in Hcount. rewrite Hd, Hn in Hcount.
  assert (Hin : c ∈ filter (fun q => q = c) (children n))
    by (by apply list_elem_of_filter).
  destruct (filter (fun q => q = c) ms.*2) as [|q l] eqn:Hf.
  - simpl in Hcount. apply length_zero_iff_nil in Hcount.
    rewrite Hcount in Hin. by apply elem_of_nil in Hin.
  - assert (Hq : q ∈ filter (fun q => q = c) ms.*2) by (rewrite Hf; left).
    apply list_elem_of_filter in Hq as [-> ?]. done.
Qed.

Lemma print_tree_paths env ft total fuel :
  forall n path lg depth,
    ft !! path = Some n ->
    Forall (fun p => printed_path p = Some path
                     \/ exists k m c, ft !! k = Some m /\ c ∈ children m
                          /\ printed_path p = Some c)
      (output (print_tree env fuel ft n path lg total depth)).
Proof.
  induction fuel as [|fuel IH]; intros n path lg depth Hn; [constructor|].
  rewrite print_tree_unfold.
  destruct (contracts_enabled env && (total <? 0)); [constructor|].
  destruct (percentage (size n) total) as [pct|]; [|constructor].
  destruct (pct <? hide env); [constructor|].
  destruct (print_size n) as [ps|]; [|constructor].
  simpl. constructor; [by left|].
  apply for_children_output. intros c nc Hc Hnc.
  eapply Forall_impl; [by apply IH|]. intros p [Hp|Hp]; [|by right].
  right. by exists path, n, c.
Qed.

(** X6. Every line of a run is the header or stands for the root or for a
    measured path; a placeholder other than the root is never printed. *)
Theorem printed_paths_measured (env : environment) (fuel : nat)
    (ms : list measurement) (root : string) (order : bool) :
  Forall (fun p => forall path, printed_path p = Some path ->
                     path = root \/ path ∈ ms.*2)
    (output (show_space_list_from env fuel ms root order)).
Proof.
  unfold show_space_list_from.
  pose proof (build_children_measured ms root) as Hm.
  destruct (build ms root) as [t ft]. cbn [snd] in Hm.
  destruct (sort_and_format order ft) as [[ft' lg]|e] eqn:Hf; [|constructor].
  destruct (ft' !! root) as [n|] eqn:Hn.
  - cbn [output]. constructor; [done|].
    eapply Forall_impl; [by apply print_tree_paths|].
    intros p [Hp|(k & m' & c & Hk & Hc & Hp)] path Hpath.
    + left. congruence.
    + right. assert (path = c) by congruence. subst path.
      destruct (sort_and_format_lookup _ _ _ _ _ _ Hf Hk) as (m & Hkm & Hfm).
      rewrite (formatted_children _ _ _ _ Hfm) in Hc. by eapply Hm.
  - cbn [output]. constructor; [done|constructor].
Qed.

Lemma for_children_sublist ft call1 call2 cs :
  (forall c n, c ∈ cs -> ft !! c = Some n ->
     status (call1 n c) = Returned ->
     status (call2 n c) = Returned
     /\ output (call2 n c) `sublist_of` output (call1 n c)) ->
  status (for_children ft call1 cs) = Returned ->
  status (for_children ft call2 cs) = Returned
  /\ output (for_children ft call2 cs) `sublist_of` output (for_children ft call1 cs).
Proof.
  induction cs as [|c cs IH]; intros H; simpl; [done|].
  destruct (ft !! c) as [n|] eqn:Hn; [|done].
  destruct (status (call1 n c)) eqn:E1; [|by rewrite E1..]. simpl. intros Hrest.
  destruct (H c n) as [E2 Hsub]; [left|done|done|]. rewrite E2. simpl.
  destruct IH as [IH1 IH2]; [|done|].
  - intros c' n' Hc'. apply H. by right.
  - split; [done|]. by apply sublist_app.
Qed.

Lemma print_tree_raise_hide env h ft total fuel :
  hide env <= h ->
  forall n path lg depth,
    status (print_tree env fuel ft n path lg total depth) = Returned ->
    status (print_tree (with_hide h env) fuel ft n path lg total depth) = Returned
    /\ output (print_tree (with_hide h env) fuel ft n path lg total depth)
       `sublist_of` output (print_tree env fuel ft n path lg total depth).
Proof.
  intros Hh. induction fuel as [|fuel IH]; intros n path lg depth; [done|].
  rewrite !print_tree_unfold. cbn [with_hide contracts_enabled hide].
  destruct (contracts_enabled env && (total <? 0)); [done|].
  destruct (percentage (size n) total) as [pct|]; [|done].
  destruct (Z.ltb_spec pct (hide env)) as [Hlt|Hge].
  - rewrite (proj2 (Z.ltb_lt pct h)) by lia. done.
  - destruct (print_size n) as [ps|]; [|done]. cbn [status output]. intros Hst.
    destruct (Z.ltb_spec pct h); [split; [done|apply sublist_nil_l]|].
    cbn [status output].
    destruct (for_children_sublist ft
      (fun child_node child =>
         print_tree env fuel ft child_node child lg total (S depth))
      (fun child_node child =>
         print_tree (with_hide h env) fuel ft child_node child lg total (S depth))
      (children n)) as [H1 H2]; [|done|].
    + intros c nc _ _. apply IH.
    + split; [done|]. by apply sublist_skip.
Qed.

(** X7. Raising the threshold only removes lines: when a run returns, the run
    with a higher [--hide] returns as well, and what it prints is what the
    first run printed with some lines left out, in the same order. *)
Theorem raising_hide_removes_lines (env : environment) (h : Z) (fuel : nat)
    (ms : list measurement) (root : string) (order : bool) :
  hide env <= h ->
  status (show_space_list_from env fuel ms root order) = Returned ->
  status (show_space_list_from (with_hide h env) fuel ms root order) = Returned
  /\ output (show_space_list_from (with_hide h env) fuel ms root order)
     `sublist_of` output (show_space_list_from env fuel ms root order).
Proof.
  intros Hh. unfold show_space_list_from. destruct (build ms root) as [t ft].
  destruct (sort_and_format order ft) as [[ft' lg]|e]; [|done].
  destruct (ft' !! root) as [n|]; [|done]. cbn [status output]. intros Hst.
  destruct (print_tree_raise_hide env h ft' t fuel Hh n root lg 0%nat Hst)
    as [H1 H2].
  split; [done|]. by apply sublist_skip.
Qed.

Lemma raising_hide_removes_lines_witness :
  0 <= 51
  /\ output (show_space_list_from (with_hide 51 (Env 0 false true)) 2 r_a_b "/r" true)
     = [Header 8; Entry "100.00Kb" 8 100 0 "/r"]
  /\ output (show_space_list_from (with_hide 51 (Env 0 false true)) 2 r_a_b "/r" true)
     `sublist_of` output (show_space_list_from (Env 0 false true) 2 r_a_b "/r" true).
Proof.
  assert (H : 0 <= 51) by discriminate. split; [exact H|].
  split; [vm_compute; reflexivity|].
  apply (raising_hide_removes_lines (Env 0 false true) 51 2 r_a_b "/r" true H).
  vm_compute. reflexivity.
Defined.

(** ** Parsing the output of [du] *)

Lemma append_cons a s r : (String a s ++ r = String a (s ++ r))%string.
Proof. reflexivity. Qed.

Lemma all_chars_snoc f s c :
  all_chars f (snoc_char s c) = all_chars f s && f c.
Proof.
  unfold snoc_char. induction s as [|a s IH].
  - change (all_chars f (String c EmptyString) = true && f c).
    cbn. by rewrite andb_true_r.
  - rewrite append_cons. cbn [all_chars]. by rewrite IH, andb_assoc.
Qed.

Lemma snoc_char_app s c r : (snoc_char s c ++ r = s ++ String c r)%string.
Proof.
  unfold snoc_char. induction s as [|a s IH]; [done|].
  by rewrite !append_cons, IH.
Qed.

Lemma snoc_char_nonempty s c : snoc_char s c <> EmptyString.
Proof. by destruct s. Qed.

Lemma is_digit_not_space c : is_digit c = true -> is_space c = false.
Proof.
  unfold is_digit, is_space. cbv zeta.
  destruct (Nat.leb_spec 48 (nat_of_ascii c)); [|done]. intros _.
  destruct (Nat.eqb_spec (nat_of_ascii c) 32); [lia|].
  destruct (Nat.leb_spec (nat_of_ascii c) 13); [lia|]. by rewrite andb_false_r.
Qed.

Lemma findall_from_matches s : forall st,
  scanning_ok st ->
  Forall (fun m => fst m <> EmptyString /\ all_chars is_digit (fst m) = true
                   /\ all_chars (fun c => negb (is_space c)) (snd m) = true)
    (findall_from st s).
Proof.
  induction s as [|c s IH]; intros st Hst.
  - destruct st as [|ds|ds|ds p]; simpl in *; [constructor..| |].
    + destruct Hst. by repeat constructor.
    + destruct Hst as (? & ? & ?). by repeat constructor.
  - destruct st as [|ds|ds|ds p]; simpl in *.
    + destruct (is_digit c) eqn:Hc; apply IH; simpl; [|done].
      by rewrite Hc.
    + destruct Hst as [Hne Hds].
      destruct (is_digit c) eqn:Hc; [|destruct (is_space c)]; apply IH; simpl; try done.
      split; [apply snoc_char_nonempty|]. by rewrite all_chars_snoc, Hds, Hc.
    + destruct Hst as [Hne Hds].
      destruct (is_space c) eqn:Hc; apply IH; simpl; [done|].
      by rewrite Hc.
    + destruct Hst as (Hne & Hds & Hp).
      destruct (is_space c) eqn:Hc.
      * constructor; [done|]. by apply IH.
      * apply IH. simpl. by rewrite all_chars_snoc, Hp, Hc.
Qed.

Lemma all_chars_elem f s c :
  all_chars f s = true -> c ∈ list_ascii_of_string s -> f c = true.
Proof.
  induction s as [|a s IH]; simpl; [by intros _ ?%elem_of_nil|].
  intros [Ha Hs]%andb_prop [->|Hc]%elem_of_cons; auto.
Qed.

(** X8. Whatever [du] prints, every parsed measurement has a size read from
    a run of digits and a path without white space; so a root directory
    whose absolute path contains white space is never among the parsed paths
    and [total_size] keeps the sentinel -1. *)
Theorem parse_du_no_space (raw_output : string) :
  Forall (fun m : measurement =>
            all_chars (fun c => negb (is_space c)) (snd m) = true)
    (parse_du raw_output)
  /\ forall root c,
       c ∈ list_ascii_of_string root -> is_space c = true ->
       (root ∉ (parse_du raw_output).*2)
       /\ (build (parse_du raw_output) root).1 = -1.
Proof.
  assert (H : Forall (fun m : measurement =>
            all_chars (fun c => negb (is_space c)) (snd m) = true)
    (parse_du raw_output)).
  { unfold parse_du. apply Forall_fmap.
    eapply Forall_impl; [by apply findall_from_matches|]. by intros m (_ & _ & ?). }
  split; [done|]. intros root c Hc Hsp.
  assert (Hroot : root ∉ (parse_du raw_output).*2).
  { intros ([s p] & -> & Hin)%list_elem_of_fmap.
    rewrite Forall_forall in H. specialize (H _ Hin). simpl in H.
    pose proof (all_chars_elem _ _ _ H Hc) as Hn. cbv beta in Hn.
    by rewrite Hsp in Hn. }
  split; [done|]. by apply build_total_missing.
Qed.

Lemma parse_du_no_space_witness :
  (" "%char ∈ list_ascii_of_string "/my dir")
  /\ is_space " " = true
  /\ (build (parse_du (du_output [("7", "/my dir/a"); ("9", "/my dir")])) "/my dir").1
     = -1.
Proof.
  assert (H1 : " "%char ∈ list_ascii_of_string "/my dir")
    by (cbn; repeat first [left | right]).
  assert (H2 : is_space " " = true) by reflexivity.
  split; [exact H1|]. split; [exact H2|].
  exact (proj2 (proj2 (parse_du_no_space _) "/my dir" " "%char H1 H2)).
Defined.

Lemma append_assoc a b c : ((a ++ b) ++ c = a ++ (b ++ c))%string.
Proof.
  induction a as [|x a IH]; [done|]. by rewrite !append_cons, IH.
Qed.

Lemma append_nil_r a : (a ++ "" = a)%string.
Proof. induction a as [|x a IH]; [done|]. by rewrite append_cons, IH. Qed.

Lemma findall_digits ds : forall acc r,
  all_chars is_digit ds = true ->
  findall_from (InDigits acc) (ds ++ r) = findall_from (InDigits (acc ++ ds)) r.
Proof.
  induction ds as [|c ds IH]; intros acc r Hds.
  - by rewrite append_nil_r.
  - cbn [all_chars] in Hds. apply andb_prop in Hds as [Hc Hds].
    rewrite append_cons. cbn [findall_from]. rewrite Hc, IH by done.
    by rewrite snoc_char_app.
Qed.

Lemma findall_path p : forall ds acc r,
  all_chars (fun c => negb (is_space c)) p = true ->
  findall_from (InPath ds acc) (p ++ r) = findall_from (InPath ds (acc ++ p)) r.
Proof.
  induction p as [|c p IH]; intros ds acc r Hp.
  - by rewrite append_nil_r.
  - cbn [all_chars] in Hp. apply andb_prop in Hp as [Hc Hp].
    apply negb_true_iff in Hc.
    rewrite append_cons. cbn [findall_from]. rewrite Hc, IH by done.
    by rewrite snoc_char_app.
Qed.

(** From the start of a plain line to the state behind its path. *)
Lemma findall_line line r :
  plain_line line ->
  findall_from Seek (fst line ++ String "009" (snd line ++ r))
  = findall_from (InPath (fst line) (snd line)) r.
Proof.
  destruct line as [ds p]. intros (Hne & Hds & Hpne & Hp). cbn [fst snd] in *.
  destruct ds as [|c ds]; [done|]. destruct p as [|c2 p]; [done|].
  cbn [all_chars] in Hds, Hp.
  apply andb_prop in Hds as [Hc Hds]. apply andb_prop in Hp as [Hc2 Hp].
  apply negb_true_iff in Hc2.
  rewrite !append_cons. cbn [findall_from]. rewrite Hc, findall_digits by done.
  cbn [findall_from]. change (is_digit "009") with false.
  change (is_space "009") with true. cbv iota.
  rewrite Hc2, findall_path by done. done.
Qed.

Lemma findall_du_joined lines :
  Forall plain_line lines -> findall_from Seek (du_joined lines) = lines.
Proof.
  induction 1 as [|line lines Hl Hls IH]; [done|].
  cbn [du_joined]. destruct lines as [|line2 lines].
  - rewrite <- (append_nil_r (snd line)) at 1. rewrite findall_line by done.
    by destruct line.
  - unfold du_line. rewrite append_assoc, append_cons, append_assoc.
    rewrite findall_line by done. rewrite append_cons. cbn [findall_from].
    change (is_space "010") with true. cbv iota.
    change (("" ++ du_joined (line2 :: lines))%string) with (du_joined (line2 :: lines)).
    rewrite IH. by destruct line.
Qed.

Lemma rstrip_cons c s :
  rstrip (String c s)
  = match rstrip s with
    | EmptyString => if is_space c then EmptyString else String c EmptyString
    | r => String c r
    end.
Proof. reflexivity. Qed.

Lemma rstrip_app a b :
  rstrip (a ++ b)
  = match rstrip b with
    | EmptyString => rstrip a
    | rb => (a ++ rb)%string
    end.
Proof.
  induction a as [|c a IH].
  - change (("" ++ b)%string) with b. by destruct (rstrip b).
  - rewrite append_cons, !rstrip_cons, IH.
    destruct (rstrip b) as [|x rb]; [done|].
    rewrite append_cons. by destruct (a ++ String x rb)%string eqn:E;
      [destruct a; discriminate|].
Qed.

Lemma rstrip_plain p :
  all_chars (fun c => negb (is_space c)) p = true -> rstrip p = p.
Proof.
  induction p as [|c p IH]; [done|]. cbn [all_chars].
  intros [Hc Hp]%andb_prop. apply negb_true_iff in Hc.
  rewrite rstrip_cons, IH, Hc by done. by destruct p.
Qed.

Lemma du_joined_nonempty line lines :
  plain_line line -> du_joined (line :: lines) <> EmptyString.
Proof.
  destruct line as [[|c ds] p]; intros (Hne & _); [done|].
  cbn [du_joined]. by destruct lines.
Qed.

Lemma rstrip_du_output lines :
  Forall plain_line lines -> rstrip (du_output lines) = du_joined lines.
Proof.
  induction 1 as [|line lines Hl Hls IH]; [done|].
  cbn [du_output du_joined]. rewrite rstrip_app, IH.
  destruct lines as [|line2 lines].
  - cbn [du_joined]. unfold du_line.
    destruct Hl as (_ & _ & Hpne & Hp).
    rewrite rstrip_app, rstrip_cons, rstrip_app.
    change (rstrip (String "010" "")) with EmptyString.
    rewrite (rstrip_plain (snd line)) by done.
    destruct (snd line) as [|x p] eqn:E; [done|]. done.
  - inversion Hls as [|? ? Hl2 _]; subst.
    pose proof (du_joined_nonempty line2 lines Hl2) as Hne.
    by destruct (du_joined (line2 :: lines)).
Qed.

Lemma lstrip_du_output lines :
  Forall plain_line lines -> lstrip (du_output lines) = du_output lines.
Proof.
  destruct 1 as [|[[|c ds] p] lines (Hne & Hds & _) _]; [done|done|].
  cbn [du_output]. unfold du_line. cbn [fst]. rewrite !append_cons.
  cbn [all_chars] in Hds. apply andb_prop in Hds as [Hc _].
  cbn [lstrip]. by rewrite (is_digit_not_space c Hc).
Qed.

(** X9. On the lines that [du] writes for paths without white space, each a
    size in digits, a tab, the path and a newline, parsing gives back the
    columns: one measurement per line, in order, with the path as written
    and the size read from the digits. *)
Theorem parse_du_output (lines : list (string * string)) :
  Forall plain_line lines ->
  parse_du (du_output lines)
  = (fun line => (int_of_digits 0 (fst line), snd line)) <$> lines.
Proof.
  intros H. unfold parse_du, strip.
  by rewrite lstrip_du_output, rstrip_du_output, findall_du_joined.
Qed.

Lemma parse_du_output_witness :
  Forall plain_line [("100", "/r/a"); ("200", "/r")]
  /\ parse_du (du_output [("100", "/r/a"); ("200", "/r")])
     = [(100%N, "/r/a"); (200%N, "/r")].
Proof.
  assert (H : Forall plain_line [("100", "/r/a"); ("200", "/r")]).
  { repeat constructor; discriminate. }
  split; [exact H|]. exact (parse_du_output _ H).
Defined.

(** ** The command line for [du] *)

Lemma split_space_cons s : exists w ws, split_space s = w :: ws.
Proof.
  induction s as [|c s (w & ws & IH)]; [by eexists _, _|].
  cbn [split_space]. rewrite IH. destruct (Ascii.eqb c " "); by eexists _, _.
Qed.

Lemma split_space_app a b :
  split_space (a ++ String " " b) = (split_space a ++ split_space b)%list.
Proof.
  induction a as [|c a IH].
  - change (("" ++ String " " b)%string) with (String " " b).
    cbn [split_space]. destruct (split_space_cons b) as (w & ws & ->). done.
  - rewrite append_cons. cbn [split_space]. rewrite IH.
    destruct (split_space_cons a) as (w & ws & ->).
    by destruct (Ascii.eqb c " ").
Qed.

Lemma split_space_no_blank s : no_blank s = true -> split_space s = [s].
Proof.
  induction s as [|c s IH]; [done|]. cbn [no_blank all_chars].
  intros [Hc Hs]%andb_prop. apply negb_true_iff in Hc.
  cbn [split_space]. rewrite (IH Hs), Hc. done.
Qed.

Lemma split_space_pieces s : Forall (fun w => no_blank w = true) (split_space s).
Proof.
  induction s as [|c s IH]; [by repeat constructor|].
  cbn [split_space]. destruct (split_space_cons s) as (w & ws & E).
  rewrite E in *. inversion IH as [|? ? Hw Hws]; subst.
  destruct (Ascii.eqb c " ") eqn:Hc.
  - by repeat constructor.
  - constructor; [|done]. cbn [no_blank all_chars]. by rewrite Hc.
Qed.

Lemma string_of_uint_no_blank u : no_blank (NilEmpty.string_of_uint u) = true.
Proof. induction u; cbn; done. Qed.

Lemma str_of_Z_no_blank z : no_blank (str_of_Z z) = true.
Proof.
  unfold str_of_Z, NilZero.string_of_int, NilZero.string_of_uint.
  destruct (Z.to_int z) as [u|u]; destruct u;
    first [ done | apply (string_of_uint_no_blank (_ _)) | idtac ];
    cbn [no_blank all_chars]; cbn;
    first [ done | apply (string_of_uint_no_blank _) ].
Qed.

Lemma no_space_no_blank s :
  all_chars (fun c => negb (is_space c)) s = true -> no_blank s = true.
Proof.
  unfold no_blank. induction s as [|c s IH]; [done|]. cbn [all_chars].
  intros [Hc Hs]%andb_prop. rewrite (IH Hs), andb_true_r.
  destruct (Ascii.eqb_spec c " ") as [->|]; [|done].
  vm_compute in Hc. discriminate.
Qed.

Lemma strip_du_command env depth dir cmd :
  dir <> EmptyString ->
  all_chars (fun c => negb (is_space c)) dir = true ->
  du_command env depth dir = Ok cmd ->
  strip cmd = cmd.
Proof.
  intros Hne Hdir. unfold du_command.
  destruct (contracts_enabled env && (depth <? 0)); [done|]. intros [= <-].
  unfold strip.
  change (lstrip ("du " ++ ?x)) with ("du " ++ x)%string.
  rewrite rstrip_app, rstrip_app, (rstrip_plain dir) by done.
  destruct dir as [|a d]; [done|].
  set (mid := if depth =? -1 then EmptyString else _).
  destruct (mid ++ String a d)%string eqn:E; [|done].
  destruct mid; discriminate.
Qed.

(** X10. With contract checking on (the default) a negative depth, the
    default -1 that [--all] relies on included, is rejected by the contract
    [depth: int, >=0] of [show_space_list] before any command is built.
    Otherwise a command is built, and no argument of the run ever contains a
    space, so that a directory with a space in its path is not passed to
    [du] as one argument; for a directory whose absolute path is not empty
    and has no white space the arguments are [du -d <depth> <directory>],
    or [du <directory>] for the depth -1, which gets that far only with
    contract checking off. *)
Theorem du_arguments (env : environment) (depth : Z) (abs_directory : string) :
  (contracts_enabled env = true -> depth < 0 ->
   du_command env depth abs_directory = Raise (ContractNotRespected "depth"))
  /\ (contracts_enabled env = false \/ 0 <= depth ->
      exists cmd,
        du_command env depth abs_directory = Ok cmd
        /\ Forall (fun w => no_blank w = true) (subprocess_argv cmd)
        /\ (no_blank abs_directory = false ->
            abs_directory ∉ subprocess_argv cmd)
        /\ (abs_directory <> EmptyString ->
            all_chars (fun c => negb (is_space c)) abs_directory = true ->
            subprocess_argv cmd
            = "du" :: (if depth =? -1 then [] else ["-d"; str_of_Z depth])
                   ++ [abs_directory])).
Proof.
  split.
  - intros Hc Hd. unfold du_command.
    by rewrite Hc, (proj2 (Z.ltb_lt _ _) Hd).
  - intros Hpass.
    assert (Hgo : contracts_enabled env && (depth <? 0) = false).
    { destruct Hpass as [-> | Hd]; [done|].
      rewrite (proj2 (Z.ltb_ge _ _) Hd). apply andb_false_r. }
    destruct (du_command env depth abs_directory) as [cmd|e] eqn:Hcmd.
    2: { unfold du_command in Hcmd. by rewrite Hgo in Hcmd. }
    exists cmd. split; [done|]. split; [apply split_space_pieces|]. split.
    + intros Hb Hin. pose proof (split_space_pieces (strip cmd)) as H.
      rewrite Forall_forall in H. specialize (H _ Hin). congruence.
    + intros Hne Hdir. unfold subprocess_argv.
      rewrite (strip_du_command _ _ _ _ Hne Hdir Hcmd).
      unfold du_command in Hcmd. rewrite Hgo in Hcmd. injection Hcmd as <-.
      change ("du " ++ ?x)%string with ("du" ++ String " " x)%string.
      rewrite split_space_app. change (split_space "du") with ["du"].
      cbn [app]. f_equal.
      pose proof (no_space_no_blank _ Hdir) as Hb.
      destruct (depth =? -1).
      * change (("" ++ abs_directory)%string) with abs_directory.
        by rewrite split_space_no_blank.
      * replace (("-d " ++ str_of_Z depth ++ " ") ++ abs_directory)%string
          with ("-d" ++ String " " (str_of_Z depth ++ String " " abs_directory))%string
          by (by rewrite !append_assoc).
        rewrite !split_space_app. change (split_space "-d") with ["-d"].
        rewrite !split_space_no_blank; [done|done|apply str_of_Z_no_blank].
Qed.

Lemma du_arguments_witness :
  du_command (Env 0 false true) (-1) "/home/me"
  = Raise (ContractNotRespected "depth")
  /\ (exists cmd,
        du_command (Env 0 false true) 1 "/home/me" = Ok cmd
        /\ subprocess_argv cmd = ["du"; "-d"; "1"; "/home/me"])
  /\ (exists cmd,
        du_command (Env 0 false false) (-1) "/home/my dir" = Ok cmd
        /\ "/home/my dir" ∉ subprocess_argv cmd).
Proof.
  split; [|split].
  - apply (proj1 (du_arguments (Env 0 false true) (-1) "/home/me"));
      [reflexivity|lia].
  - destruct (proj2 (du_arguments (Env 0 false true) 1 "/home/me"))
      as (cmd & Hcmd & _ & _ & Hargv); [right; lia|].
    exists cmd. split; [exact Hcmd|].
    by apply Hargv.
  - destruct (proj2 (du_arguments (Env 0 false false) (-1) "/home/my dir"))
      as (cmd & Hcmd & _ & Hdir & _); [by left|].
    exists cmd. split; [exact Hcmd|]. by apply Hdir.
Defined.

(** ** Line 96: the percentage in binary64 *)

Lemma digits2_pos_bounds p :
  2 ^ (Z.pos (digits2_pos p) - 1) <= Z.pos p < 2 ^ Z.pos (digits2_pos p).
Proof.
  induction p as [p IH|p IH|]; cbn [digits2_pos].
  - rewrite Pos2Z.inj_succ. replace (Z.succ (Z.pos (digits2_pos p)) - 1) with (Z.succ (Z.pos (digits2_pos p) - 1)) by lia.
    rewrite !Z.pow_succ_r by lia. lia.
  - rewrite Pos2Z.inj_succ. replace (Z.succ (Z.pos (digits2_pos p)) - 1) with (Z.succ (Z.pos (digits2_pos p) - 1)) by lia.
    rewrite !Z.pow_succ_r by lia. lia.
  - simpl. lia.
Qed.

Lemma digits2_pos_le p (d : Z) :
  0 <= d -> Z.pos p < 2 ^ d -> Z.pos (digits2_pos p) <= d.
Proof.
  intros Hd H. destruct (Z_le_gt_dec (Z.pos (digits2_pos p)) d) as [|Hgt]; [done|].
  pose proof (digits2_pos_bounds p) as [Hlow _].
  assert (2 ^ d <= 2 ^ (Z.pos (digits2_pos p) - 1)) by (apply Z.pow_le_mono_r; lia).
  lia.
Qed.

Lemma digits2_pos_shift p k :
  digits2_pos (Pos.iter xO p k) = (digits2_pos p + k)%positive.
Proof.
  induction k as [|k IH] using Pos.peano_ind.
  - simpl. lia.
  - rewrite Pos.iter_succ. cbn [digits2_pos]. rewrite IH. lia.
Qed.

Lemma shift_value p k : Z.pos (Pos.iter xO p k) = Z.pos p * 2 ^ Z.pos k.
Proof.
  induction k as [|k IH] using Pos.peano_ind.
  - simpl. lia.
  - rewrite Pos.iter_succ, Pos2Z.inj_xO, IH, Pos2Z.inj_succ, Z.pow_succ_r by lia. lia.
Qed.

(** A mantissa of 53 digits with an exponent in range is kept as it is. *)
Lemma binary_round_aux_exact s m e :
  digits2_pos m = 53%positive -> -1074 <= e <= 971 ->
  binary_round_aux PyFloat.prec PyFloat.emax s (Z.pos m) e loc_Exact = S754_finite s m e.
Proof.
  intros Hd He. unfold binary_round_aux, shr_fexp, fexp, emin, PyFloat.prec, PyFloat.emax.
  cbn [Zdigits2 shr_record_of_loc]. rewrite Hd.
  replace (Z.max (53 + e - 53) (3 - 1024 - 53) - e) with 0 by lia.
  cbn [shr shr_m loc_of_shr_record round_nearest_even Zdigits2 shr_record_of_loc].
  rewrite Hd.
  replace (Z.max (53 + e - 53) (3 - 1024 - 53) - e) with 0 by lia.
  cbn [shr shr_m].
  replace (e <=? 1024 - 53) with true by (symmetry; apply Z.leb_le; lia).
  reflexivity.
Qed.

Lemma of_int_exact p :
  Z.pos p < 2 ^ 53 ->
  exists m e,
    binary_normalize PyFloat.prec PyFloat.emax (Z.pos p) 0 false = S754_finite false m e
    /\ digits2_pos m = 53%positive /\ -52 <= e <= 0
    /\ Z.pos m = Z.pos p * 2 ^ (- e).
Proof.
  intros Hp. pose proof (digits2_pos_le p 53 ltac:(lia) Hp) as Hd.
  cbn [binary_normalize]. unfold binary_round, shl_align, fexp, emin, PyFloat.prec, PyFloat.emax.
  set (d := digits2_pos p) in *.
  replace (Z.max (Z.pos d + 0 - 53) (3 - 1024 - 53) - 0) with (Z.pos d - 53) by lia.
  replace (Z.max (Z.pos d + 0 - 53) (3 - 1024 - 53)) with (Z.pos d - 53) by lia.
  destruct (Z.pos d - 53) as [|q|q] eqn:E; [|lia|].
  - exists p, 0. split; [|split; [|split]]; try lia.
    apply (binary_round_aux_exact false p 0); [fold d; lia|lia].
  - exists (Pos.iter xO p q), (Z.neg q).
    assert (Hdig : digits2_pos (Pos.iter xO p q) = 53%positive)
      by (rewrite digits2_pos_shift; fold d; lia).
    split; [|split; [|split]]; try done; try lia.
    + apply (binary_round_aux_exact false _ (Z.neg q)); [done|lia].
    + rewrite shift_value. reflexivity.
Qed.

Lemma digits2_pos_unique p (d : Z) :
  2 ^ (d - 1) <= Z.pos p < 2 ^ d -> Z.pos (digits2_pos p) = d.
Proof.
  intros [Hlow Hup]. pose proof (digits2_pos_bounds p) as [Hlow' Hup'].
  assert (Hd : 0 < d).
  { destruct (Z_lt_le_dec 0 d) as [|Hle]; [done|].
    destruct (Z.eq_dec d 0) as [->|]; [simpl in Hup; lia|].
    rewrite Z.pow_neg_r in Hup by lia. lia. }
  destruct (Z.lt_trichotomy (Z.pos (digits2_pos p)) d) as [Hlt|[Heq|Hgt]]; [|done|].
  - assert (2 ^ Z.pos (digits2_pos p) <= 2 ^ (d - 1)) by (apply Z.pow_le_mono_r; lia).
    lia.
  - assert (2 ^ d <= 2 ^ (Z.pos (digits2_pos p) - 1)) by (apply Z.pow_le_mono_r; lia).
    lia.
Qed.

Lemma shr_1_m mrs : 0 <= shr_m mrs -> shr_m (shr_1 mrs) = shr_m mrs / 2.
Proof.
  destruct mrs as [m r s]. cbn [shr_m]. intros Hm.
  destruct m as [|[p|p|]|p]; cbn [shr_1 shr_m]; try lia; try done.
  - rewrite (Pos2Z.inj_xI p). apply (Z.div_unique _ 2 _ 1); lia.
  - rewrite (Pos2Z.inj_xO p). apply (Z.div_unique _ 2 _ 0); lia.
Qed.

Lemma shr_1_nonneg mrs : 0 <= shr_m mrs -> 0 <= shr_m (shr_1 mrs).
Proof. intros H. rewrite shr_1_m by done. apply Z.div_pos; lia. Qed.

Lemma iter_shr_1_m p : forall mrs,
  0 <= shr_m mrs ->
  shr_m (SpecFloat.iter_pos shr_1 p mrs) = shr_m mrs / 2 ^ Z.pos p.
Proof.
  induction p as [p IH|p IH|]; intros mrs Hm; cbn [SpecFloat.iter_pos].
  - assert (H1 : 0 <= shr_m (shr_1 mrs)) by (by apply shr_1_nonneg).
    assert (H2 : 0 <= shr_m (SpecFloat.iter_pos shr_1 p (shr_1 mrs))).
    { rewrite IH by done. apply Z.div_pos; [done|]. apply Z.pow_pos_nonneg; lia. }
    rewrite IH, IH, shr_1_m by done.
    rewrite !Z.div_div by (try apply Z.pow_pos_nonneg; lia).
    f_equal. rewrite (Pos2Z.inj_xI p).
    replace (2 * Z.pos p + 1) with (1 + Z.pos p + Z.pos p) by lia.
    rewrite !Z.pow_add_r by lia. lia.
  - assert (H2 : 0 <= shr_m (SpecFloat.iter_pos shr_1 p mrs)).
    { rewrite IH by done. apply Z.div_pos; [done|]. apply Z.pow_pos_nonneg; lia. }
    rewrite IH, IH by done.
    rewrite !Z.div_div by (try apply Z.pow_pos_nonneg; lia).
    f_equal. rewrite (Pos2Z.inj_xO p).
    replace (2 * Z.pos p) with (Z.pos p + Z.pos p) by lia.
    rewrite !Z.pow_add_r by lia. lia.
  - by apply shr_1_m.
Qed.

Lemma round_nearest_even_cases mx lx :
  round_nearest_even mx lx = mx \/ round_nearest_even mx lx = mx + 1.
Proof.
  destruct lx as [|[]]; cbn [round_nearest_even]; auto.
  destruct (Z.even mx); auto.
Qed.

(** The first shift of [binary_round_aux]: down to 53 digits. *)
Lemma shr_fexp_spec m e l (dm : Z) :
  0 < m -> Zdigits2 m = dm -> 53 <= dm -> -1074 <= dm + e - 53 ->
  exists mrs,
    shr_fexp PyFloat.prec PyFloat.emax m e l = (mrs, e + (dm - 53))
    /\ shr_m mrs = m / 2 ^ (dm - 53).
Proof.
  intros Hm Hdm Hd He. unfold shr_fexp, fexp, emin, PyFloat.prec, PyFloat.emax. rewrite Hdm.
  replace (Z.max (dm + e - 53) (3 - 1024 - 53) - e) with (dm - 53) by lia.
  destruct (dm - 53) as [|n|n] eqn:En; [| |lia].
  - exists (shr_record_of_loc m l). cbn [shr]. rewrite Z.add_0_r.
    split; [done|]. change (2 ^ 0) with 1. rewrite Z.div_1_r.
    by destruct l as [|[]].
  - exists (SpecFloat.iter_pos shr_1 n (shr_record_of_loc m l)). cbn [shr].
    split; [done|]. rewrite iter_shr_1_m.
    + by destruct l as [|[]].
    + destruct l as [|[]]; simpl; lia.
Qed.

Lemma Zdigits2_bounds m : 0 < m -> 2 ^ (Zdigits2 m - 1) <= m < 2 ^ Zdigits2 m.
Proof. destruct m as [|p|p]; [lia| |lia]. intros _. apply digits2_pos_bounds. Qed.

Lemma Zdigits2_unique m d : 0 < m -> 2 ^ (d - 1) <= m < 2 ^ d -> Zdigits2 m = d.
Proof. destruct m as [|p|p]; [lia| |lia]. intros _. apply digits2_pos_unique. Qed.

(** [binary_round_aux] on a mantissa of at least 53 digits, away from the
    subnormal and the infinite range: the result is finite, has 53 digits,
    and is within one unit of its last place of the mantissa given. *)
Lemma round_aux_spec s m e l (dm : Z) :
  0 < m -> Zdigits2 m = dm -> 53 <= dm ->
  -1074 <= dm + e - 53 -> dm + e - 53 + 1 <= 971 ->
  exists mf ef,
    binary_round_aux PyFloat.prec PyFloat.emax s m e l = S754_finite s mf ef
    /\ digits2_pos mf = 53%positive
    /\ e + (dm - 53) <= ef <= e + (dm - 53) + 1
    /\ m - 2 ^ (dm - 53) < Z.pos mf * 2 ^ (ef - e) <= m + 2 ^ (dm - 53).
Proof.
  intros Hm Hdm Hd Hlow Hhigh. unfold binary_round_aux.
  destruct (shr_fexp_spec m e l dm Hm Hdm Hd Hlow) as (mrs & -> & Ha).
  set (n := dm - 53) in *. set (a := shr_m mrs) in *.
  assert (Hn : 0 <= n) by lia.
  assert (Hpn : 0 < 2 ^ n) by (apply Z.pow_pos_nonneg; lia).
  pose proof (Zdigits2_bounds m Hm) as [Hml Hmu]. rewrite Hdm in Hml, Hmu.
  assert (Hdiv : a * 2 ^ n <= m < (a + 1) * 2 ^ n).
  { rewrite Ha. pose proof (Z.mul_div_le m (2 ^ n) Hpn).
    pose proof (Z.mul_succ_div_gt m (2 ^ n) Hpn). lia. }
  assert (Hsplit : 2 ^ dm = 2 ^ 53 * 2 ^ n /\ 2 ^ (dm - 1) = 2 ^ 52 * 2 ^ n).
  { split.
    - replace dm with (53 + n) at 1 by lia. rewrite Z.pow_add_r by lia. done.
    - replace (dm - 1) with (52 + n) by lia. rewrite Z.pow_add_r by lia. done. }
  destruct Hsplit as [Hs1 Hs2].
  assert (Habound : 2 ^ 52 <= a < 2 ^ 53) by nia.
  set (mx := round_nearest_even a (loc_of_shr_record mrs)).
  assert (Hmx : mx = a \/ mx = a + 1) by apply round_nearest_even_cases.
  destruct (Z_lt_le_dec mx (2 ^ 53)) as [Hsmall|Hbig].
  - assert (Hd1 : Zdigits2 mx = 53) by (apply Zdigits2_unique; lia).
    destruct (shr_fexp_spec mx (e + n) loc_Exact 53 ltac:(lia) Hd1 ltac:(lia) ltac:(lia))
      as (mrs2 & -> & Hm2).
    change (53 - 53) with 0 in Hm2 |- *. change (2 ^ 0) with 1 in Hm2.
    rewrite Z.div_1_r in Hm2. rewrite Hm2, Z.add_0_r.
    destruct mx as [|mf|mf] eqn:Emx; [lia| |lia].
    replace (e + n <=? PyFloat.emax - PyFloat.prec) with true
      by (symmetry; apply Z.leb_le; unfold PyFloat.emax, PyFloat.prec; lia).
    exists mf, (e + n). split; [done|]. split.
    { apply Pos2Z.inj. exact Hd1. }
    split; [lia|]. replace (e + n - e) with n by lia. nia.
  - assert (Hmx53 : mx = 2 ^ 53) by lia.
    assert (Hd1 : Zdigits2 mx = 54) by (rewrite Hmx53; reflexivity).
    destruct (shr_fexp_spec mx (e + n) loc_Exact 54 ltac:(lia) Hd1 ltac:(lia) ltac:(lia))
      as (mrs2 & -> & Hm2).
    rewrite Hmx53 in Hm2. change (2 ^ 53 / 2 ^ (54 - 53)) with (2 ^ 52) in Hm2.
    rewrite Hm2. change (2 ^ 52) with (Z.pos (2 ^ 52)).
    cbv iota. change (54 - 53) with 1.
    replace (e + n + 1 <=? PyFloat.emax - PyFloat.prec) with true
      by (symmetry; apply Z.leb_le; unfold PyFloat.emax, PyFloat.prec; lia).
    exists (2 ^ 52)%positive, (e + n + 1). split; [done|]. split; [reflexivity|].
    split; [lia|]. replace (e + n + 1 - e) with (n + 1) by lia.
    rewrite Z.pow_add_r by lia. change (Z.pos (2 ^ 52) * (2 ^ n * 2 ^ 1)) with (2 ^ 52 * (2 ^ n * 2)).
    nia.
Qed.

Lemma new_location_zero nb : new_location nb 0 = loc_Exact.
Proof. unfold new_location, new_location_even, new_location_odd. by destruct (Z.even nb). Qed.

(** The quotient of two doubles with mantissas of 53 digits. *)
Lemma SFdiv_spec m1 e1 m2 e2 :
  digits2_pos m1 = 53%positive -> digits2_pos m2 = 53%positive ->
  -52 <= e1 <= 0 -> -52 <= e2 <= 0 ->
  let q := Z.pos m1 * 2 ^ 53 / Z.pos m2 in
  let e' := e1 - e2 - 53 in
  exists mf ef (dq : Z),
    SFdiv PyFloat.prec PyFloat.emax (S754_finite false m1 e1) (S754_finite false m2 e2)
    = S754_finite false mf ef
    /\ digits2_pos mf = 53%positive
    /\ 53 <= dq <= 54 /\ 2 ^ (dq - 1) <= q
    /\ e' + (dq - 53) <= ef <= e' + (dq - 53) + 1
    /\ q - 2 ^ (dq - 53) < Z.pos mf * 2 ^ (ef - e') <= q + 2 ^ (dq - 53).
Proof.
  intros Hd1 Hd2 He1 He2 q e'.
  pose proof (digits2_pos_bounds m1) as Hb1. rewrite Hd1 in Hb1.
  pose proof (digits2_pos_bounds m2) as Hb2. rewrite Hd2 in Hb2.
  change (2 ^ (53 - 1)) with (2 ^ 52) in Hb1, Hb2.
  assert (Hq : 2 ^ 52 <= q < 2 ^ 54).
  { unfold q. split.
    - apply Z.div_le_lower_bound; [lia|]. nia.
    - apply Z.div_lt_upper_bound; [lia|]. nia. }
  cbn [SFdiv xorb]. unfold SFdiv_core_binary.
  cbn [Zdigits2]. rewrite Hd1, Hd2. unfold fexp, emin, PyFloat.prec, PyFloat.emax.
  replace (Z.min (Z.max (53 + e1 - (53 + e2) - 53) (3 - 1024 - 53)) (e1 - e2))
    with e' by (unfold e'; lia).
  replace (e1 - e2 - e') with 53 by (unfold e'; lia).
  rewrite Z.shiftl_mul_pow2 by lia.
  pose proof (Z.div_eucl_eq (Z.pos m1 * 2 ^ 53) (Z.pos m2) ltac:(lia)) as Heq.
  destruct (Z.div_eucl (Z.pos m1 * 2 ^ 53) (Z.pos m2)) as [q0 r0] eqn:Edq.
  assert (Hq0 : q0 = q).
  { unfold q, Z.div. by rewrite Edq. }
  subst q0.
  assert (Hdq : 53 <= Zdigits2 q <= 54).
  { pose proof (Zdigits2_bounds q ltac:(lia)) as [Hl Hu].
    split.
    - destruct (Z_le_gt_dec 53 (Zdigits2 q)) as [|Hgt]; [done|].
      assert (2 ^ Zdigits2 q <= 2 ^ 52) by (apply Z.pow_le_mono_r; lia). lia.
    - destruct (Z_le_gt_dec (Zdigits2 q) 54) as [|Hgt]; [done|].
      assert (2 ^ 54 <= 2 ^ (Zdigits2 q - 1)) by (apply Z.pow_le_mono_r; lia). lia. }
  destruct (round_aux_spec false q e' (new_location (Z.pos m2) r0) (Zdigits2 q))
    as (mf & ef & Hr & Hdig & Hef & Hval);
    [lia|done|lia|unfold e'; lia|unfold e'; lia|].
  exists mf, ef, (Zdigits2 q). fold PyFloat.prec PyFloat.emax. rewrite Hr.
  repeat (split; [done || lia|]).
  split; [apply Zdigits2_bounds; lia|]. done.
Qed.

Lemma hundred_double :
  binary_normalize PyFloat.prec PyFloat.emax 100 0 false = S754_finite false m100 (-46).
Proof. reflexivity. Qed.

(** A double with a mantissa of 53 digits times 100.0. *)
Lemma SFmul_100_spec mf1 ef1 :
  digits2_pos mf1 = 53%positive -> -110 <= ef1 <= 10 ->
  let P := Z.pos mf1 * Z.pos m100 in
  let e := ef1 - 46 in
  exists mf2 ef2 (dP : Z),
    SFmul PyFloat.prec PyFloat.emax (S754_finite false mf1 ef1) (S754_finite false m100 (-46))
    = S754_finite false mf2 ef2
    /\ digits2_pos mf2 = 53%positive
    /\ 105 <= dP <= 106 /\ 2 ^ (dP - 1) <= P
    /\ e + (dP - 53) <= ef2 <= e + (dP - 53) + 1
    /\ P - 2 ^ (dP - 53) < Z.pos mf2 * 2 ^ (ef2 - e) <= P + 2 ^ (dP - 53).
Proof.
  intros Hd1 He1 P e.
  pose proof (digits2_pos_bounds mf1) as Hb1. rewrite Hd1 in Hb1.
  change (2 ^ (53 - 1)) with (2 ^ 52) in Hb1.
  assert (HP : 2 ^ 104 <= P < 2 ^ 106).
  { unfold P, m100. lia. }
  cbn [SFmul xorb]. rewrite Pos2Z.inj_mul. fold P.
  replace (ef1 + -46) with e by (unfold e; lia).
  assert (HdP : 105 <= Zdigits2 P <= 106).
  { pose proof (Zdigits2_bounds P ltac:(lia)) as [Hl Hu].
    split.
    - destruct (Z_le_gt_dec 105 (Zdigits2 P)) as [|Hgt]; [done|].
      assert (2 ^ Zdigits2 P <= 2 ^ 104) by (apply Z.pow_le_mono_r; lia). lia.
    - destruct (Z_le_gt_dec (Zdigits2 P) 106) as [|Hgt]; [done|].
      assert (2 ^ 106 <= 2 ^ (Zdigits2 P - 1)) by (apply Z.pow_le_mono_r; lia). lia. }
  destruct (round_aux_spec false P e loc_Exact (Zdigits2 P))
    as (mf & ef & Hr & Hdig & Hef & Hval);
    [lia|done|lia|unfold e; lia|unfold e; lia|].
  exists mf, ef, (Zdigits2 P). rewrite Hr.
  repeat (split; [done || lia|]).
  split; [apply Zdigits2_bounds; lia|]. done.
Qed.

Lemma percentage_core (s t cs ct q a b P W Y T : Z) :
  0 < s -> 0 < t -> 0 < cs -> 0 < ct -> 0 < W -> 0 < Y -> 0 < T ->
  300 * s <= 2 ^ 52 ->
  q * (t * ct) <= s * cs * 2 ^ 53 < (q + 1) * (t * ct) ->
  2 ^ 52 <= q ->
  (2 ^ 52 - 1) * q < 2 ^ 52 * a <= (2 ^ 52 + 1) * q ->
  (2 ^ 52 - 1) * P < 2 ^ 52 * b <= (2 ^ 52 + 1) * P ->
  P * W = 100 * (a * Y) ->
  Y * cs * 2 ^ 53 = T * ct ->
  T * (100 * s - 1) <= b * W * t < T * (100 * s + 1).
Proof.
  intros Hs Ht Hcs Hct HW HY HT Hsmall [Hq1 Hq2] Hq [Ha1 Ha2] [Hb1 Hb2] HPW HYT.
  change (2 ^ 52) with 4503599627370496 in *.
  change (2 ^ 53) with 9007199254740992 in *.
  assert (HWt : 0 < W * t) by lia.
  assert (HYt : 0 < Y * t) by lia.
  (* everything multiplied out over the common factors *)
  assert (Hb1' : (4503599627370496 - 1) * (P * W * t) < 4503599627370496 * (b * W * t)).
  { replace (P * W * t) with (P * (W * t)) by ring.
    replace (b * W * t) with (b * (W * t)) by ring.
    rewrite 2!(Z.mul_assoc _ _ (W * t)). apply Z.mul_lt_mono_pos_r; lia. }
  assert (Hb2' : 4503599627370496 * (b * W * t) <= (4503599627370496 + 1) * (P * W * t)).
  { replace (P * W * t) with (P * (W * t)) by ring.
    replace (b * W * t) with (b * (W * t)) by ring.
    rewrite 2!(Z.mul_assoc _ _ (W * t)). apply Z.mul_le_mono_nonneg_r; lia. }
  assert (Ha1' : (4503599627370496 - 1) * (q * Y * t) < 4503599627370496 * (a * Y * t)).
  { replace (q * Y * t) with (q * (Y * t)) by ring.
    replace (a * Y * t) with (a * (Y * t)) by ring.
    rewrite 2!(Z.mul_assoc _ _ (Y * t)). apply Z.mul_lt_mono_pos_r; lia. }
  assert (Ha2' : 4503599627370496 * (a * Y * t) <= (4503599627370496 + 1) * (q * Y * t)).
  { replace (q * Y * t) with (q * (Y * t)) by ring.
    replace (a * Y * t) with (a * (Y * t)) by ring.
    rewrite 2!(Z.mul_assoc _ _ (Y * t)). apply Z.mul_le_mono_nonneg_r; lia. }
  assert (HPa : P * W * t = 100 * (a * Y * t)).
  { rewrite HPW. ring. }
  assert (Hq1' : q * Y * t <= s * T).
  { apply (Z.mul_le_mono_pos_r _ _ ct); [assumption|].
    replace (q * Y * t * ct) with (q * (t * ct) * Y) by ring.
    replace (s * T * ct) with (s * (T * ct)) by ring.
    rewrite <- HYT.
    replace (s * (Y * cs * 9007199254740992)) with (s * cs * 9007199254740992 * Y) by ring.
    apply Z.mul_le_mono_nonneg_r; lia. }
  assert (Hq2' : s * T < (q + 1) * Y * t).
  { apply (Z.mul_lt_mono_pos_r ct); [assumption|].
    replace ((q + 1) * Y * t * ct) with ((q + 1) * (t * ct) * Y) by ring.
    replace (s * T * ct) with (s * (T * ct)) by ring.
    rewrite <- HYT.
    replace (s * (Y * cs * 9007199254740992)) with (s * cs * 9007199254740992 * Y) by ring.
    apply Z.mul_lt_mono_pos_r; lia. }
  assert (Hq3 : 4503599627370496 * ((q + 1) * Y * t) <= (4503599627370496 + 1) * (q * Y * t)).
  { replace ((q + 1) * Y * t) with ((q + 1) * (Y * t)) by ring.
    replace (q * Y * t) with (q * (Y * t)) by ring.
    rewrite 2!(Z.mul_assoc _ _ (Y * t)). apply Z.mul_le_mono_nonneg_r; lia. }
  assert (HsT : 300 * (s * T) <= 4503599627370496 * T).
  { rewrite Z.mul_assoc. apply Z.mul_le_mono_nonneg_r; lia. }
  assert (0 < s * T) by lia.
  replace (T * (100 * s - 1)) with (100 * (s * T) - T) by ring.
  replace (T * (100 * s + 1)) with (100 * (s * T) + T) by ring.
  replace ((q + 1) * Y * t) with (q * Y * t + Y * t) in * by ring.
  generalize dependent (b * W * t). generalize dependent (P * W * t).
  generalize dependent (a * Y * t). generalize dependent (q * Y * t).
  generalize dependent (s * T). generalize dependent (Y * t).
  intros. lia.
Qed.

Lemma to_int_scaled mf ef :
  -256 <= ef ->
  PyFloat.to_int (S754_finite false mf ef)
  = Ok (Z.pos mf * 2 ^ (ef + 256) / 2 ^ 256).
Proof.
  intros He. destruct ef as [|e|e]; cbn [PyFloat.to_int cond_Zopp]; f_equal.
  - change (0 + 256) with 256. rewrite Z.div_mul; [|lia].
    change (2 ^ 0) with 1. lia.
  - rewrite Z.pow_add_r, Z.mul_assoc by lia. rewrite Z.div_mul; [reflexivity|lia].
  - replace (2 ^ 256) with (2 ^ Z.pos e * 2 ^ (Z.neg e + 256)).
    + rewrite Z.div_mul_cancel_r; [reflexivity| |];
        apply Z.pow_nonzero; lia.
    + rewrite <- Z.pow_add_r by lia. f_equal. lia.
Qed.

Lemma floor_between (R T s t : Z) :
  0 < T -> 0 < t -> 0 <= s ->
  T * (100 * s - 1) <= R * t < T * (100 * s + 1) ->
  100 * s / t - 1 <= R / T <= 100 * s / t
  /\ ((100 * s) mod t <> 0 -> R / T = 100 * s / t).
Proof.
  intros HT Ht Hs [Hlo Hhi].
  pose proof (Z.div_mod (100 * s) t ltac:(lia)) as Hdm.
  pose proof (Z.mod_pos_bound (100 * s) t Ht) as Hmod.
  set (K := 100 * s / t) in *. set (f := (100 * s) mod t) in *.
  assert (Hup : R / T <= K).
  { apply Z.lt_succ_r, Z.div_lt_upper_bound; [done|].
    apply (Z.mul_lt_mono_pos_r t); [done|].
    eapply Z.lt_le_trans; [exact Hhi|].
    replace (T * Z.succ K * t) with (T * (t * K + t)) by ring.
    apply Z.mul_le_mono_nonneg_l; lia. }
  assert (Hlow : f <> 0 -> K <= R / T).
  { intros Hf. apply Z.div_le_lower_bound; [done|].
    apply (Z.mul_le_mono_pos_r _ _ t); [done|].
    etrans; [|exact Hlo].
    replace (T * K * t) with (T * (t * K)) by ring.
    apply Z.mul_le_mono_nonneg_l; lia. }
  split; [split; [|done]|].
  - apply Z.div_le_lower_bound; [done|].
    apply (Z.mul_le_mono_pos_r _ _ t); [done|].
    etrans; [|exact Hlo].
    replace (T * (K - 1) * t) with (T * (t * K - t)) by ring.
    apply Z.mul_le_mono_nonneg_l; lia.
  - intros Hf. specialize (Hlow Hf). lia.
Qed.

Lemma pow2_pos (k : Z) : 0 <= k -> 0 < 2 ^ k.
Proof. intros. apply Z.pow_pos_nonneg; lia. Qed.

Lemma ulp_bound (d q x : Z) :
  53 <= d -> 2 ^ (d - 1) <= q ->
  q - 2 ^ (d - 53) < x <= q + 2 ^ (d - 53) ->
  2 ^ 52 <= q /\ (2 ^ 52 - 1) * q < 2 ^ 52 * x <= (2 ^ 52 + 1) * q.
Proof.
  intros Hd Hq Hx.
  assert (Hu : 2 ^ 52 * 2 ^ (d - 53) <= q).
  { etrans; [|exact Hq]. rewrite <- Z.pow_add_r by lia.
    apply Z.pow_le_mono_r; lia. }
  assert (H52 : 2 ^ 52 <= q).
  { etrans; [|exact Hq]. apply Z.pow_le_mono_r; lia. }
  pose proof (pow2_pos (d - 53) ltac:(lia)).
  change (2 ^ 52) with 4503599627370496 in *.
  generalize dependent (2 ^ (d - 53)). intros. lia.
Qed.

Lemma percentage_positive (ps pt : positive) :
  300 * Z.pos ps <= 2 ^ 52 -> Z.pos pt < 2 ^ 53 ->
  exists R,
    percentage (N.pos ps) (Z.pos pt) = Ok (R / 2 ^ 256)
    /\ 2 ^ 256 * (100 * Z.pos ps - 1) <= R * Z.pos pt
       < 2 ^ 256 * (100 * Z.pos ps + 1).
Proof.
  intros Hs Ht.
  destruct (of_int_exact ps) as (ms & es & Hms & Hds & Hes & Hvs).
  { change (2 ^ 52) with 4503599627370496 in Hs.
    change (2 ^ 53) with 9007199254740992. lia. }
  destruct (of_int_exact pt) as (mt & et & Hmt & Hdt & Het & Hvt); [done|].
  destruct (SFdiv_spec ms es mt et Hds Hdt Hes Het)
    as (mf1 & ef1 & dq & Hdiv & Hd1 & Hdq & Hq & Hef1 & Hv1).
  destruct (SFmul_100_spec mf1 ef1 Hd1 ltac:(lia))
    as (mf2 & ef2 & dP & Hmul & Hd2 & HdP & HP & Hef2 & Hv2).
  exists (Z.pos mf2 * 2 ^ (ef2 + 256)). split.
  - unfold percentage, PyFloat.of_int. cbn [Z.of_N].
    rewrite Hmt, Hms. unfold PyFloat.div. cbn [PyFloat.is_zero].
    rewrite Hdiv, hundred_double. unfold PyFloat.mul. rewrite Hmul.
    apply to_int_scaled. lia.
  - set (q := Z.pos ms * 2 ^ 53 / Z.pos mt) in *.
    destruct (ulp_bound dq q (Z.pos mf1 * 2 ^ (ef1 - (es - et - 53))))
      as [Hq52 Ha]; [lia|done|exact Hv1|].
    destruct (ulp_bound dP (Z.pos mf1 * Z.pos m100)
                (Z.pos mf2 * 2 ^ (ef2 - (ef1 - 46))))
      as [_ Hb]; [lia|done|exact Hv2|].
    replace (Z.pos mf2 * 2 ^ (ef2 + 256))
      with (Z.pos mf2 * 2 ^ (ef2 - (ef1 - 46)) * 2 ^ (ef1 - 46 + 256)).
    2: { rewrite <- Z.mul_assoc, <- Z.pow_add_r by lia. do 2 f_equal. lia. }
    apply (percentage_core (Z.pos ps) (Z.pos pt) (2 ^ (- es)) (2 ^ (- et)) q
             (Z.pos mf1 * 2 ^ (ef1 - (es - et - 53))) _
             (Z.pos mf1 * Z.pos m100) _ (2 ^ (es - et - 53 + 256)) (2 ^ 256));
      try done; try (apply pow2_pos; lia).
    + rewrite <- Hvs, <- Hvt.
      pose proof (Z.mul_div_le (Z.pos ms * 2 ^ 53) (Z.pos mt) ltac:(lia)) as H1.
      pose proof (Z.mul_succ_div_gt (Z.pos ms * 2 ^ 53) (Z.pos mt) ltac:(lia)) as H2.
      fold q in H1, H2. clearbody q. lia.
    + rewrite <- (Z.mul_assoc (Z.pos mf1) (2 ^ _) (2 ^ _)), <- Z.pow_add_r by lia.
      replace (ef1 - (es - et - 53) + (es - et - 53 + 256))
        with (46 + (ef1 - 46 + 256)) by lia.
      rewrite (Z.pow_add_r 2 46 (ef1 - 46 + 256)) by lia.
      change (Z.pos m100) with (100 * 2 ^ 46). ring.
    + rewrite <- !Z.pow_add_r by lia. f_equal. lia.
Qed.

(** A double with a mantissa of 53 digits divided by itself is 1.0. *)
Lemma SFdiv_self m e :
  digits2_pos m = 53%positive ->
  SFdiv PyFloat.prec PyFloat.emax (S754_finite false m e) (S754_finite false m e)
  = S754_finite false 4503599627370496 (-52).
Proof.
  intros Hd. cbn [SFdiv xorb]. unfold SFdiv_core_binary.
  cbn [Zdigits2]. rewrite Hd. unfold fexp, emin, PyFloat.prec, PyFloat.emax.
  replace (Z.min (Z.max (53 + e - (53 + e) - 53) (3 - 1024 - 53)) (e - e))
    with (-53) by lia.
  replace (e - e - -53) with 53 by lia.
  rewrite Z.shiftl_mul_pow2 by lia.
  pose proof (Z.div_eucl_eq (Z.pos m * 2 ^ 53) (Z.pos m) ltac:(lia)) as Heq.
  pose proof (Z.mod_mul (2 ^ 53) (Z.pos m) ltac:(lia)) as Hmod.
  pose proof (Z.div_mul (2 ^ 53) (Z.pos m) ltac:(lia)) as Hdiv.
  rewrite (Z.mul_comm (2 ^ 53)) in Hmod, Hdiv.
  unfold Z.modulo in Hmod. unfold Z.div in Hdiv.
  destruct (Z.div_eucl (Z.pos m * 2 ^ 53) (Z.pos m)) as [q0 r0].
  subst q0 r0. rewrite new_location_zero. reflexivity.
Qed.

Lemma percentage_zero (pt : positive) :
  Z.pos pt < 2 ^ 53 -> percentage 0 (Z.pos pt) = Ok 0.
Proof.
  intros Ht.
  destruct (of_int_exact pt) as (mt & et & Hmt & _); [done|].
  unfold percentage, PyFloat.of_int. cbn [Z.of_N]. rewrite Hmt. reflexivity.
Qed.

Lemma percentage_self (p : positive) :
  Z.pos p < 2 ^ 53 -> percentage (N.pos p) (Z.pos p) = Ok 100.
Proof.
  intros Ht.
  destruct (of_int_exact p) as (m & e & Hm & Hd & _); [done|].
  unfold percentage, PyFloat.of_int. cbn [Z.of_N]. rewrite Hm.
  unfold PyFloat.div. cbn [PyFloat.is_zero]. rewrite SFdiv_self by done.
  reflexivity.
Qed.

(** Line 96 returns on a size of at most 2^43 and a total in (0, 2^53). *)
Lemma percentage_returns (s : N) (t : Z) :
  (s <= 2 ^ 43)%N -> 0 < t < 2 ^ 53 ->
  exists pct, percentage s t = Ok pct.
Proof.
  intros Hs Ht. destruct t as [|pt|pt]; [lia| |lia].
  destruct s as [|ps].
  - exists 0. apply percentage_zero. lia.
  - destruct (percentage_positive ps pt) as (R & HR & _); [|lia|by eexists].
    change (2 ^ 52) with 4503599627370496.
    change (2 ^ 43)%N with 8796093022208%N in Hs. lia.
Qed.

(** X11. Line 96, [int(size / float(total_size) * 100)] in binary64, on a
    size of at most 2^43 and a total in (0, 2^53): the result is the integer
    quotient of [100 * size] by the total or one less, and one less only
    where the total divides [100 * size] (29 of 100 gives 28). *)
Theorem percentage_floor (node_size : N) (total_size : Z) :
  (node_size <= 2 ^ 43)%N -> 0 < total_size < 2 ^ 53 ->
  exists pct, percentage node_size total_size = Ok pct
    /\ 100 * Z.of_N node_size / total_size - 1 <= pct
       <= 100 * Z.of_N node_size / total_size
    /\ ((100 * Z.of_N node_size) mod total_size <> 0 ->
        pct = 100 * Z.of_N node_size / total_size).
Proof.
  intros Hs Ht. destruct total_size as [|pt|pt]; [lia| |lia].
  destruct node_size as [|ps].
  - exists 0. rewrite percentage_zero by lia. split; [done|].
    change (100 * Z.of_N 0) with 0. rewrite Z.div_0_l by lia. lia.
  - destruct (percentage_positive ps pt) as (R & HR & Hb); [|lia|].
    { change (2 ^ 52) with 4503599627370496.
      change (2 ^ 43)%N with 8796093022208%N in Hs. lia. }
    exists (R / 2 ^ 256). split; [done|]. cbn [Z.of_N].
    apply floor_between; [done|lia|lia|done].
Qed.


Lemma percentage_floor_witness :
  percentage 29 100 = Ok 28
  /\ exists pct, percentage 29 100 = Ok pct
       /\ 100 * Z.of_N 29 / 100 - 1 <= pct <= 100 * Z.of_N 29 / 100
       /\ ((100 * Z.of_N 29) mod 100 <> 0 -> pct = 100 * Z.of_N 29 / 100).
Proof.
  split; [vm_compute; reflexivity|].
  apply (percentage_floor 29 100); [by vm_compute|lia].
Defined.

(** ** Runs that return *)

Lemma for_children_no_raise ft call cs :
  (forall c, c ∈ cs -> is_Some (ft !! c)) ->
  (forall c n e, c ∈ cs -> ft !! c = Some n -> status (call n c) <> Raised e) ->
  forall e, status (for_children ft call cs) <> Raised e.
Proof.
  induction cs as [|c cs IH]; intros Hin H e; simpl; [done|].
  destruct (Hin c) as [n Hn]; [left|]. rewrite Hn.
  assert (Hc : forall e, status (call n c) <> Raised e)
    by (intros e'; apply H; [left|done]).
  destruct (status (call n c)) eqn:E; [|by rewrite E..]. simpl.
  apply IH.
  - intros c' Hc'. apply Hin. by right.
  - intros c' n' e' Hc'. apply H. by right.
Qed.

(** Nothing is raised below a total in (0, 2^53) when every entry has a size
    of at most 2^43 and its size string, and every child is an entry. *)
Lemma print_tree_no_raise env ft lg total :
  closed ft -> 0 < total < 2 ^ 53 ->
  (forall k n, ft !! k = Some n ->
     (size n <= 2 ^ 43)%N /\ is_Some (print_size n)) ->
  forall fuel n path depth e, ft !! path = Some n ->
    status (print_tree env fuel ft n path lg total depth) <> Raised e.
Proof.
  intros Hcl Ht Hft. induction fuel as [|fuel IH]; intros n path depth e Hn; [done|].
  rewrite print_tree_unfold.
  replace (total <? 0) with false by (symmetry; apply Z.ltb_ge; lia).
  rewrite andb_false_r.
  destruct (Hft path n Hn) as [Hsz [ps Hps]].
  destruct (percentage_returns (size n) total Hsz Ht) as (pct & ->).
  destruct (pct <? hide env); [done|]. rewrite Hps. cbn [status].
  apply for_children_no_raise.
  - intros c Hc. by eapply Hcl.
  - intros c nc e' Hc Hnc. by apply IH.
Qed.

(** The tree that [print_tree] is handed when the root is measured and every
    measurement is below 2^41 blocks. *)
Lemma measured_root_tree pre s post root order :
  root ∉ post.*2 ->
  (forall s' p, (s', p) ∈ (pre ++ (s, root) :: post)%list -> (s' < 2 ^ 41)%N) ->
  exists ft' lg n ps,
    (build (pre ++ (s, root) :: post) root).1 = Z.of_N s
    /\ sort_and_format order (build (pre ++ (s, root) :: post) root).2 = Ok (ft', lg)
    /\ ft' !! root = Some n /\ size n = s
    /\ bytes_to_readable s = Ok ps /\ print_size n = Some ps
    /\ linked root ft'
    /\ (forall k m, ft' !! k = Some m ->
          (size m <= 2 ^ 43)%N /\ is_Some (print_size m)).
Proof.
  intros Hpost Hsz. set (ms := (pre ++ (s, root) :: post)%list) in *.
  pose proof (build_total_measured pre s post root Hpost) as Ht.
  pose proof (build_measured_size pre s root post root Hpost) as Hs.
  destruct (build_formats order ms root Hsz) as (ft' & lg & Hf).
  pose proof (sort_and_format_linked _ root _ _ _ Hf (build_linked ms root)) as Hl.
  fold ms in Ht, Hs.
  rewrite <- (sort_and_format_child_size _ _ _ _ root Hf) in Hs.
  unfold child_size in Hs. destruct (ft' !! root) as [n|] eqn:Hn; [|done].
  injection Hs as Hs.
  destruct (sort_and_format_lookup _ _ _ _ _ _ Hf Hn)
    as (n0 & Hn0 & _ & Hsize & ps & Hps & Hprint).
  exists ft', lg, n, ps. rewrite <- Hsize, Hs in Hps.
  repeat (split; [done|]).
  intros k m Hm.
  destruct (sort_and_format_lookup _ _ _ _ _ _ Hf Hm)
    as (m0 & Hm0 & _ & Hsm & psm & _ & Hpm).
  split; [|by exists psm]. rewrite Hsm.
  destruct (build_sizes ms root k (size m0)) as [->|[p Hp]].
  - unfold child_size. by rewrite Hm0.
  - done.
  - specialize (Hsz _ _ Hp). change (2 ^ 43)%N with (2 ^ 41 * 4)%N. lia.
Qed.

(** X12. A run on measurements below 2^41 blocks whose root is measured
    (last) with a positive size returns normally: from some recursion depth
    on, [show_space_list] neither raises nor is cut short. *)
Theorem measured_run_returns (env : environment)
    (pre post : list measurement) (s : N) (root : string) (order : bool) :
  root ∉ post.*2 -> (0 < s)%N ->
  (forall s' p, (s', p) ∈ (pre ++ (s, root) :: post)%list -> (s' < 2 ^ 41)%N) ->
  exists fuel0, forall fuel, (fuel0 <= fuel)%nat ->
    status (show_space_list_from env fuel (pre ++ (s, root) :: post) root order)
    = Returned.
Proof.
  intros Hpost Hpos Hsz.
  destruct (measured_root_tree pre s post root order Hpost Hsz)
    as (ft' & lg & n & ps & Ht & Hf & Hn & Hs & _ & _ & Hl & Hft).
  unfold show_space_list_from.
  destruct (build (pre ++ (s, root) :: post) root) as [t ft].
  cbn [fst snd] in *. subst t. rewrite Hf, Hn.
  exists (S (max_len ft')). intros fuel Hfuel. cbn [status].
  assert (Ht : 0 < Z.of_N s < 2 ^ 53).
  { assert (s < 2 ^ 41)%N by (eapply (Hsz s root), elem_of_app; right; left).
    change (2 ^ 53) with (Z.of_N (2 ^ 41) * 4096). lia. }
  pose proof (print_tree_terminates env root ft' lg (Z.of_N s) Hl fuel n root 0%nat
                Hn ltac:(by left) ltac:(lia)) as Hfin.
  pose proof (print_tree_no_raise env ft' lg (Z.of_N s)
                (linked_closed _ _ Hl) Ht Hft fuel n root 0%nat) as Hraise.
  destruct (status (print_tree env fuel ft' n root lg (Z.of_N s) 0)) as [|e|];
    [done|by destruct (Hraise e)|done].
Qed.

Lemma measured_run_returns_witness :
  exists fuel0, forall fuel, (fuel0 <= fuel)%nat ->
    status (show_space_list_from (Env 0 false true) fuel
              ([(100%N, "/r/a")] ++ (200%N, "/r") :: [(100%N, "/r/b")]) "/r" true)
    = Returned.
Proof.
  apply (measured_run_returns (Env 0 false true) [(100%N, "/r/a")]
           [(100%N, "/r/b")] 200 "/r" true).
  - intros [[=]|Hin%elem_of_nil]%elem_of_cons. done.
  - reflexivity.
  - intros s' p Hin.
    repeat (apply elem_of_cons in Hin as [[= -> ->]|Hin]; [reflexivity|]).
    by apply elem_of_nil in Hin.
Defined.

(** X13. On measurements below 2^41 blocks whose root is measured (last)
    with a positive size, the first line after the header is the root's, at
    depth 0 with its size string and 100 percent (line 96 computes
    [size / float(size) * 100] exactly), unless the threshold is above 100:
    then the header is the whole output and the run returns. *)
Theorem root_line (env : environment) (fuel : nat)
    (pre post : list measurement) (s : N) (root : string) (order : bool) :
  root ∉ post.*2 -> (0 < s)%N ->
  (forall s' p, (s', p) ∈ (pre ++ (s, root) :: post)%list -> (s' < 2 ^ 41)%N) ->
  exists lg ps,
    bytes_to_readable s = Ok ps
    /\ (100 < hide env ->
        show_space_list_from env (S fuel) (pre ++ (s, root) :: post) root order
        = Outcome [Header lg] Returned)
    /\ (hide env <= 100 -> exists rest,
        output (show_space_list_from env (S fuel) (pre ++ (s, root) :: post)
                  root order)
        = Header lg :: Entry ps lg 100 0 root :: rest).
Proof.
  intros Hpost Hpos Hsz.
  destruct (measured_root_tree pre s post root order Hpost Hsz)
    as (ft' & lg & n & ps & Ht & Hf & Hn & Hs & Hps & Hprint & Hl & Hft).
  exists lg, ps. split; [done|].
  unfold show_space_list_from.
  destruct (build (pre ++ (s, root) :: post) root) as [t ft].
  cbn [fst snd] in *. subst t. rewrite Hf, Hn, print_tree_unfold, Hs.
  replace (Z.of_N s <? 0) with false by (symmetry; apply Z.ltb_ge; lia).
  rewrite andb_false_r.
  assert (Hpct : percentage s (Z.of_N s) = Ok 100).
  { destruct s as [|p]; [lia|]. apply percentage_self.
    assert (N.pos p < 2 ^ 41)%N by (eapply (Hsz _ root), elem_of_app; right; left).
    change (2 ^ 53) with (Z.of_N (2 ^ 41) * 4096). lia. }
  rewrite Hpct. split.
  - intros Hh. by replace (100 <? hide env) with true by (symmetry; apply Z.ltb_lt; lia).
  - intros Hh. replace (100 <? hide env) with false by (symmetry; apply Z.ltb_ge; lia).
    rewrite Hprint. cbn [output]. eauto.
Qed.

Lemma root_line_witness :
  exists lg ps,
    bytes_to_readable 200 = Ok ps
    /\ (100 < 0 ->
        show_space_list_from (Env 0 false true) 2
          ([(100%N, "/r/a")] ++ (200%N, "/r") :: [(100%N, "/r/b")]) "/r" true
        = Outcome [Header lg] Returned)
    /\ (0 <= 100 -> exists rest,
        output (show_space_list_from (Env 0 false true) 2
                  ([(100%N, "/r/a")] ++ (200%N, "/r") :: [(100%N, "/r/b")])
                  "/r" true)
        = Header lg :: Entry ps lg 100 0 "/r" :: rest).
Proof.
  apply (root_line (Env 0 false true) 1 [(100%N, "/r/a")]
           [(100%N, "/r/b")] 200 "/r" true).
  - intros [[=]|Hin%elem_of_nil]%elem_of_cons. done.
  - reflexivity.
  - intros s' p Hin.
    repeat (apply elem_of_cons in Hin as [[= -> ->]|Hin]; [reflexivity|]).
    by apply elem_of_nil in Hin.
Defined.

(** ** The shape of the listing *)

Lemma print_tree_depth_to env root ft total lg :
  linked root ft ->
  forall fuel n path depth,
    ft !! path = Some n -> Nat.iter depth dirname path = root ->
    Forall (depth_to root) (output (print_tree env fuel ft n path lg total depth)).
Proof.
  intros Hl. induction fuel as [|fuel IH]; intros n path depth Hn Hd; [constructor|].
  rewrite print_tree_unfold.
  destruct (contracts_enabled env && (total <? 0)); [constructor|].
  destruct (percentage (size n) total) as [pct|]; [|constructor].
  destruct (pct <? hide env); [constructor|].
  destruct (print_size n) as [ps|]; [|constructor]. cbn [output].
  constructor; [done|]. apply for_children_output. intros c nc Hc Hnc.
  apply IH; [done|]. rewrite Nat.iter_succ_r.
  destruct (Hl path n c Hn Hc) as (_ & -> & _). done.
Qed.

(** X14. The depth at which a line is printed is the number of
    [os.path.dirname] steps from its path up to the root: the indentation of
    the tree view shows the nesting of the paths. *)
Theorem printed_depth (env : environment) (fuel : nat)
    (ms : list measurement) (root : string) (order : bool) :
  Forall (depth_to root) (output (show_space_list_from env fuel ms root order)).
Proof.
  unfold show_space_list_from. pose proof (build_linked ms root) as Hl.
  destruct (build ms root) as [t ft]. cbn [snd] in Hl.
  destruct (sort_and_format order ft) as [[ft' lg]|e] eqn:Hf; [|constructor].
  pose proof (sort_and_format_linked _ root _ _ _ Hf Hl) as Hl'.
  destruct (ft' !! root) as [n|] eqn:Hn; cbn [output].
  - constructor; [done|]. by apply print_tree_depth_to.
  - constructor; [done|constructor].
Qed.

Lemma for_children_nested ft call cs (d0 : nat) (p : string) :
  (forall c n, c ∈ cs -> ft !! c = Some n -> nested (S d0) c (output (call n c))) ->
  (forall c, c ∈ cs -> dirname c = p) ->
  forall (i : nat) ps lg pct d c,
    output (for_children ft call cs) !! i = Some (Entry ps lg pct d c) ->
    (d = S d0 /\ dirname c = p)
    \/ exists (j : nat) ps' lg' pct' d',
         (j < i)%nat /\ d = S d'
         /\ output (for_children ft call cs) !! j
            = Some (Entry ps' lg' pct' d' (dirname c)).
Proof.
  induction cs as [|c0 cs IH]; intros Hcall Hdir i ps lg pct d c; simpl; [done|].
  destruct (ft !! c0) as [n|] eqn:Hn; [|done].
  assert (Hhere : forall l2, output (call n c0) !! i = Some (Entry ps lg pct d c) ->
    (d = S d0 /\ dirname c = p)
    \/ exists (j : nat) ps' lg' pct' d',
         (j < i)%nat /\ d = S d'
         /\ (output (call n c0) ++ l2)%list !! j
            = Some (Entry ps' lg' pct' d' (dirname c))).
  { intros l2 Hi.
    destruct (Hcall c0 n ltac:(left) Hn i ps lg pct d c Hi)
      as [(_ & -> & ->)|(j & ps' & lg' & pct' & d' & Hj & -> & Hlj)].
    - left. split; [done|]. apply Hdir. left.
    - right. exists j, ps', lg', pct', d'. split; [done|]. split; [done|].
      by apply lookup_app_l_Some. }
  destruct (status (call n c0)) eqn:E.
  - cbn [output]. intros [Hi|[Hlen Hi]]%lookup_app_Some; [by apply Hhere|].
    destruct (IH ltac:(intros c' n' Hc'; apply Hcall; by right)
                 ltac:(intros c' Hc'; apply Hdir; by right) _ _ _ _ _ _ Hi)
      as [?|(j & ps' & lg' & pct' & d' & Hj & -> & Hlj)]; [by left|right].
    exists (length (output (call n c0)) + j)%nat, ps', lg', pct', d'.
    split; [lia|]. split; [done|].
    rewrite lookup_app_r by lia.
    by replace (length (output (call n c0)) + j - length (output (call n c0)))%nat
      with j by lia.
  - intros Hi. destruct (Hhere [] Hi) as [?|H]; [by left|right].
    by rewrite app_nil_r in H.
  - intros Hi. destruct (Hhere [] Hi) as [?|H]; [by left|right].
    by rewrite app_nil_r in H.
Qed.

Lemma print_tree_nested env root ft total lg :
  linked root ft ->
  forall fuel n path depth,
    ft !! path = Some n ->
    nested depth path (output (print_tree env fuel ft n path lg total depth)).
Proof.
  intros Hl. induction fuel as [|fuel IH]; intros n path depth Hn; [done|].
  rewrite print_tree_unfold.
  destruct (contracts_enabled env && (total <? 0)); [done|].
  destruct (percentage (size n) total) as [pct|]; [|done].
  destruct (pct <? hide env); [done|].
  destruct (print_size n) as [ps|]; [|done]. cbn [output].
  intros [|i] ps' lg' pct' d c Hi.
  - injection Hi as <- <- <- <- <-. by left.
  - right. cbn in Hi.
    eapply (for_children_nested _ _ _ depth path) in Hi
      as [[-> Hd]|(j & ps2 & lg2 & pct2 & d2 & Hj & -> & Hlj)].
    + exists O, ps, lg, pct, depth. split; [lia|]. split; [done|].
      cbn. by rewrite Hd.
    + exists (S j), ps2, lg2, pct2, d2. split; [lia|]. done.
    + intros c' nc Hc Hnc. by apply IH.
    + intros c' Hc. by destruct (Hl path n c' Hn Hc) as (_ & ? & _).
Qed.

(** X15. Lines come parents first: a printed line is the root's, right
    after the header, or a line for its directory name stands above it, one
    level up. No entry is listed under a parent that was hidden. *)
Theorem parent_line_above (env : environment) (fuel : nat)
    (ms : list measurement) (root : string) (order : bool)
    (i : nat) ps lg pct (d : nat) (c : string) :
  output (show_space_list_from env fuel ms root order) !! i
    = Some (Entry ps lg pct d c) ->
  (i = 1%nat /\ d = O /\ c = root)
  \/ exists (j : nat) ps' lg' pct' d',
       (j < i)%nat /\ d = S d'
       /\ output (show_space_list_from env fuel ms root order) !! j
          = Some (Entry ps' lg' pct' d' (dirname c)).
Proof.
  unfold show_space_list_from. pose proof (build_linked ms root) as Hl.
  destruct (build ms root) as [t ft]. cbn [snd] in Hl.
  destruct (sort_and_format order ft) as [[ft' lg0]|e] eqn:Hf; [|done].
  pose proof (sort_and_format_linked _ root _ _ _ Hf Hl) as Hl'.
  destruct (ft' !! root) as [n|] eqn:Hn; cbn [output].
  - destruct i as [|i]; [done|]. cbn. intros Hi.
    destruct (print_tree_nested env root ft' t lg0 Hl' fuel n root O Hn
                i ps lg pct d c Hi)
      as [(-> & -> & ->)|(j & ps' & lg' & pct' & d' & Hj & -> & Hlj)]; [by left|].
    right. exists (S j), ps', lg', pct', d'. split; [lia|]. done.
  - by destruct i as [|[|i]].
Qed.

Lemma parent_line_above_witness :
  output (show_space_list_from (Env 0 false true) 2 r_a_b "/r" true) !! 2%nat
  = Some (Entry "50.00Kb" 8 50 1 "/r/a")
  /\ ((2 = 1 /\ 1 = 0 /\ "/r/a" = "/r")%nat
      \/ exists (j : nat) ps' lg' pct' d',
           (j < 2)%nat /\ 1%nat = S d'
           /\ output (show_space_list_from (Env 0 false true) 2 r_a_b "/r" true) !! j
              = Some (Entry ps' lg' pct' d' (dirname "/r/a"))).
Proof.
  split; [vm_compute; reflexivity|].
  apply (parent_line_above (Env 0 false true) 2 r_a_b "/r" true 2 "50.00Kb" 8 50).
  vm_compute; reflexivity.
Defined.

Lemma filter_level_below (depth : nat) l :
  Forall (below (S depth)) l ->
  filter (fun p => printed_level p = Some depth) l = [].
Proof.
  induction 1 as [|p l Hp Hl IH]; [done|].
  rewrite filter_cons, IH. case_decide as H; [|done].
  destruct p; simpl in *; [done|]. injection H as ->. lia.
Qed.

(** The only line of a call at its own depth is its first. *)
Lemma print_tree_top_line env ft total fuel n c lg depth :
  ft !! c = Some n ->
  status (print_tree env fuel ft n c lg total depth) = Returned ->
  omap printed_path
    (filter (fun p => printed_level p = Some depth)
       (output (print_tree env fuel ft n c lg total depth)))
  = if shown env ft total c then [c] else [].
Proof.
  intros Hn. unfold shown. rewrite Hn.
  destruct fuel as [|fuel]; [done|]. rewrite print_tree_unfold.
  destruct (contracts_enabled env && (total <? 0)); [done|].
  destruct (percentage (size n) total) as [pct|]; [|done].
  destruct (pct <? hide env); [done|].
  destruct (print_size n) as [ps|]; [|done]. cbn [output status negb]. intros _.
  rewrite filter_cons, decide_True by done.
  rewrite filter_level_below; [done|].
  apply for_children_output. intros c' nc _ _. apply print_tree_below.
Qed.

(** X16. When a call of [print_tree] prints its entry and returns, the
    lines one level below are those of its children that pass the threshold
    test of line 98, in the order of the children list (lines 109-111). *)
Theorem children_lines_in_order (env : environment) (ft : gmap string node)
    (total : Z) (fuel : nat) (n : node) (path : string) (lg depth : nat)
    (pct : Z) :
  status (print_tree env (S fuel) ft n path lg total depth) = Returned ->
  percentage (size n) total = Ok pct -> hide env <= pct ->
  omap printed_path
    (filter (fun p => printed_level p = Some (S depth))
       (output (print_tree env (S fuel) ft n path lg total depth)))
  = filter (fun c => shown env ft total c = true) (children n).
Proof.
  rewrite print_tree_unfold. intros Hst Hpct Hle. rewrite Hpct in Hst |- *.
  destruct (contracts_enabled env && (total <? 0)); [done|].
  rewrite (proj2 (Z.ltb_ge _ _) Hle) in Hst |- *.
  destruct (print_size n) as [ps|]; [|done]. cbn [output status] in Hst |- *.
  rewrite filter_cons, decide_False by (simpl; intros [=]; lia).
  apply for_children_returned in Hst as [Hall ->].
  induction Hall as [|c cs (nc & Hnc & Hc) _ IH]; [done|].
  rewrite fmap_cons, concat_cons, filter_app, omap_app, IH, Hnc.
  rewrite (print_tree_top_line _ _ _ _ _ _ _ _ Hnc Hc), filter_cons.
  destruct (shown env ft total c); [by rewrite decide_True|by rewrite decide_False].
Qed.

Lemma children_lines_in_order_witness :
  omap printed_path
    (filter (fun p => printed_level p = Some 1%nat)
       (output (print_tree (Env 30 false true) 2 four_sorted
                  (Node ["/r/d"; "/r/b"; "/r/a"; "/r/c"] 9 (Some "4.50Kb"))
                  "/r" 6 20 0)))
  = filter (fun c => shown (Env 30 false true) four_sorted 20 c = true)
      ["/r/d"; "/r/b"; "/r/a"; "/r/c"]
  /\ filter (fun c => shown (Env 30 false true) four_sorted 20 c = true)
       ["/r/d"; "/r/b"; "/r/a"; "/r/c"] = ["/r/d"; "/r/b"].
Proof.
  split; [|vm_compute; reflexivity].
  apply (children_lines_in_order (Env 30 false true) four_sorted 20 1
           (Node ["/r/d"; "/r/b"; "/r/a"; "/r/c"] 9 (Some "4.50Kb")) "/r" 6 0 45).
  - vm_compute; reflexivity.
  - vm_compute; reflexivity.
  - simpl. lia.
Defined.
